(** * GeoStatsr: the country coder (reverse geocoding of guesses)

    A shallow embedding of the [CountryCoder] of GeoStatsr: the canonical
    identifier normaliser, the catalog loader with its geometry parser, the
    point resolver and the level walk, followed by the properties of the
    specification that concern them.

    Go strings are byte sequences: they are modelled by [string], whose
    characters are the bytes.  [float64] is the primitive binary64 type. *)

From Stdlib Require Import Ascii String NArith ZArith Floats.
From stdpp Require Import gmap strings list.


(** ** Bytes and the [strings] package *)

Definition byteVal (c : ascii) : N := N_of_ascii c.

Definition isLower (c : ascii) : bool :=
  ((97 <=? byteVal c) && (byteVal c <=? 122))%N.

Definition isUpper (c : ascii) : bool :=
  ((65 <=? byteVal c) && (byteVal c <=? 90))%N.

Definition isDigit (c : ascii) : bool :=
  ((48 <=? byteVal c) && (byteVal c <=? 57))%N.

(** [utf8.RuneSelf] is 0x80: bytes below it are single-byte runes. *)
Definition isASCIIByte (c : ascii) : bool := (byteVal c <? 128)%N.

Fixpoint allBytes (p : ascii -> bool) (s : string) : bool :=
  match s with
  | EmptyString => true
  | String c rest => p c && allBytes p rest
  end.

Fixpoint mapBytes (f : ascii -> ascii) (s : string) : string :=
  match s with
  | EmptyString => EmptyString
  | String c rest => String (f c) (mapBytes f rest)
  end.

Definition upperByte (c : ascii) : ascii :=
  if isLower c then ascii_of_N (byteVal c - 32) else c.

Definition lowerByte (c : ascii) : ascii :=
  if isUpper c then ascii_of_N (byteVal c + 32) else c.

(** [strings.HasPrefix]. *)
Fixpoint HasPrefix (s prefix : string) {struct prefix} : bool :=
  match prefix, s with
  | EmptyString, _ => true
  | String p prefix', String c s' => bool_decide (p = c) && HasPrefix s' prefix'
  | String _ _, EmptyString => false
  end.

(** ** The identifier filter [idFilterRegex]

    [\b(and|the|of|el|la|de)\b|[-_ .,'()&\[\]/]] carries no flag: the words
    are matched as written, in lower case, and [\b] is the ASCII word
    boundary of RE2 (a word byte is a letter, a digit or the underscore). *)

Definition isWordByte (c : ascii) : bool :=
  isLower c || isUpper c || isDigit c || bool_decide (c = "_"%char).

Definition isWordAt (o : option ascii) : bool :=
  match o with
  | Some c => isWordByte c
  | None => false
  end.

(** [\b] between the byte before the position and the byte after it
    ([None] at either end of the text). *)
Definition wordBoundary (before after : option ascii) : bool :=
  xorb (isWordAt before) (isWordAt after).

(** The bracket class [[-_ .,'()&\[\]/]]. *)
Definition inFilterClass (c : ascii) : bool :=
  match c with
  | "-" | "_" | " " | "." | "," | "'" | "(" | ")" | "&" | "[" | "]" | "/" => true
  | _ => false
  end%char.

Definition stopWords : list string := ["and"; "the"; "of"; "el"; "la"; "de"].

Definition headByte (s : string) : option ascii :=
  match s with
  | EmptyString => None
  | String c _ => Some c
  end.

Fixpoint dropBytes (n : nat) (s : string) : string :=
  match n, s with
  | O, _ => s
  | S k, String _ rest => dropBytes k rest
  | S _, EmptyString => EmptyString
  end.

Fixpoint lastByte (before : option ascii) (s : string) : option ascii :=
  match s with
  | EmptyString => before
  | String c rest => lastByte (Some c) rest
  end.

(** One word of the alternation at the current position: [\b w \b].
    Returns the number of bytes matched. *)
Definition matchWord (before : option ascii) (s : string) (w : string) : option nat :=
  if HasPrefix s w
     && wordBoundary before (headByte s)
     && wordBoundary (lastByte before w) (headByte (dropBytes (String.length w) s))
  then Some (String.length w)
  else None.

(** The alternation is tried left to right; the first word that matches
    wins. *)
Fixpoint matchWords (before : option ascii) (s : string) (ws : list string) : option nat :=
  match ws with
  | [] => None
  | w :: ws' =>
      match matchWord before s w with
      | Some n => Some n
      | None => matchWords before s ws'
      end
  end.

(** The length of the match of [idFilterRegex] that starts at the current
    position, [0] when there is none.  [before] is the byte in front of the
    position in the text that is searched. *)
Definition idFilterRegex (before : option ascii) (s : string) : nat :=
  match matchWords before s stopWords with
  | Some n => n
  | None =>
      match s with
      | String c _ => if inFilterClass c then 1 else 0
      | EmptyString => 0
      end
  end.

(** [idFilterRegex.ReplaceAllString(id, "")]: the successive leftmost matches
    are deleted.  [skip] counts the bytes that remain of the match in
    progress. *)
Fixpoint replaceAllFrom (before : option ascii) (skip : nat) (s : string) : string :=
  match s with
  | EmptyString => EmptyString
  | String c rest =>
      match skip with
      | S k => replaceAllFrom (Some c) k rest
      | O =>
          match idFilterRegex before s with
          | S k => replaceAllFrom (Some c) k rest
          | O => String c (replaceAllFrom (Some c) 0 rest)
          end
      end
  end.

Definition ReplaceAllString (s : string) : string := replaceAllFrom None 0 s.

(** What the normaliser needs of [strings.Map(unicode.ToUpper, s)], the path
    [strings.ToUpper] takes for a string with a byte outside ASCII: upper
    casing twice is upper casing once, the result has no lower-case ASCII
    letter, no byte of the filter class appears that was not in the input,
    and a leading dot stays in front. *)
Record UpperMapping (toUpper mapUpper : string -> string) : Prop := {
  upper_idem : forall s, toUpper (mapUpper s) = mapUpper s;
  upper_no_lower : forall s, allBytes (fun c => negb (isLower c)) (mapUpper s) = true;
  upper_no_class : forall s,
    allBytes (fun c => negb (inFilterClass c)) s = true ->
    allBytes (fun c => negb (inFilterClass c)) (mapUpper s) = true;
  upper_dot : forall s, HasPrefix s "." = true -> HasPrefix (mapUpper s) "." = true
}.

(** A byte-wise stand-in for the Unicode mappings, used to run examples:
    the ASCII letters change case, every other byte is kept. *)
Definition asciiMapUpper (s : string) : string := mapBytes upperByte s.
Definition asciiMapLower (s : string) : string := mapBytes lowerByte s.

(** ** Dynamic values

    The values of Go's [interface{}] that the coder meets: what
    [json.Unmarshal] stores in an empty interface (nil, bool, float64,
    string, []interface{}, map[string]interface{}), and the []string that
    the loader copies from the typed properties. *)

#[local] Set Warnings "-register-all".

Inductive any : Type :=
| Nil
| Bool (b : bool)
| Float64 (f : float)
| Str (s : string)
| Slice (l : list any)
| Map (m : gmap string any)
| StrSlice (l : list string).

(** ** The orb geometry types and planar containment *)

Module orb.

(** [orb.Point] is [[2]float64{x, y}]: longitude first. *)
Definition Point : Type := float * float.
Definition Ring : Type := list Point.
Definition Polygon : Type := list Ring.
Definition MultiPolygon : Type := list Polygon.

Inductive Geometry : Type :=
| GPoint (p : Point)
| GPolygon (p : Polygon)
| GMultiPolygon (mp : MultiPolygon).

End orb.

Module planar.

(** Modelled from the spec: [planar.PolygonContains] of the orb dependency,
    whose source is not part of the repository.  The ring test (ray casting
    over float64) is the parameter [RingContains]; the first ring is the
    outer boundary and the other rings are holes, which subtract from it.
    The library indexes [p[0]]: the loader never builds a polygon without
    rings (see [coordsToPolygon]), so the first equation is not reached on a
    loaded catalog. *)
Definition PolygonContains (RingContains : orb.Ring -> orb.Point -> bool)
    (p : orb.Polygon) (point : orb.Point) : bool :=
  match p with
  | [] => false
  | outer :: holes =>
      RingContains outer point
      && forallb (fun hole => negb (RingContains hole point)) holes
  end.

(** Modelled from the spec: [planar.MultiPolygonContains] of the orb
    dependency.  Containment is true if the point falls inside any
    constituent polygon. *)
Definition MultiPolygonContains (RingContains : orb.Ring -> orb.Point -> bool)
    (mp : orb.MultiPolygon) (point : orb.Point) : bool :=
  existsb (fun p => PolygonContains RingContains p point) mp.

End planar.

(** A ring test for axis-aligned rectangles, used to run the examples: the
    point lies within the bounds of the ring.  On a rectangular ring this is
    planar containment. *)
Definition boundsContain (r : orb.Ring) (pt : orb.Point) : bool :=
  existsb (fun q => PrimFloat.leb (fst q) (fst pt)) r
  && existsb (fun q => PrimFloat.leb (fst pt) (fst q)) r
  && existsb (fun q => PrimFloat.leb (snd q) (snd pt)) r
  && existsb (fun q => PrimFloat.leb (snd pt) (snd q)) r.

(** ** Features

    [geojson.Feature] as the loader fills it: a type, the property bag
    [map[string]interface{}] and a geometry ([None] is the nil interface). *)

Module geojson.

Record Feature : Type := {
  Type_ : string;
  Properties : gmap string any;
  Geometry : option orb.Geometry
}.

End geojson.

(** The typed records [json.Unmarshal] fills from countries.json.  The raw
    geometry message of a feature is kept as the value it decodes to ([Nil]
    when the member is missing or null). *)

Module region.

Record RegionFeatureProperties : Type := {
  ID : string;
  ISO1A2 : string;
  ISO1A3 : string;
  ISO1N3 : string;
  M49 : string;
  Wikidata : string;
  EmojiFlag : string;
  CCTLD : string;
  NameEn : string;
  Aliases : list string;
  Country : string;
  Groups : list string;
  Members : list string;
  Level : string;
  ISOStatus : string;
  DriveSide : string;
  CallingCodes : list string
}.

Record RegionFeature : Type := {
  Type_ : string;
  Properties : RegionFeatureProperties;
  Geometry : any
}.

Record RegionFeatureCollection : Type := {
  CollectionType : string;
  Features : list RegionFeature
}.

End region.

Record CountryCoder : Type := {
  features : list geojson.Feature;
  featuresByCode : gmap string geojson.Feature;
  levels : list string
}.

Record CodingOptions : Type := {
  Level : string;
  MaxLevel : string;
  WithProp : string
}.

(** Geographic levels, roughly from most to least granular. *)
Definition defaultLevels : list string :=
  [ "subterritory"; "territory"; "subcountryGroup"; "country";
    "sharedLandform"; "intermediateRegion"; "subregion"; "region";
    "subunion"; "union"; "unitedNations"; "world" ].

(** ** Geometry parsing *)

(** The inner loop of [coordsToPolygon]: the points of one ring. *)
Definition ringPoints (ringArray : list any) : list orb.Point :=
  fold_left
    (fun points point =>
       match point with
       | Slice (Float64 lng :: Float64 lat :: _) => points ++ [(lng, lat)]
       | _ => points
       end)
    ringArray [].

Definition coordsToPolygon (coords : any) : option orb.Polygon :=
  match coords with
  | Slice coordsArray =>
      let rings :=
        fold_left
          (fun rings ring =>
             match ring with
             | Slice ringArray =>
                 let points := ringPoints ringArray in
                 if (0 <? length points)%nat then rings ++ [points] else rings
             | _ => rings
             end)
          coordsArray [] in
      if (0 <? length rings)%nat then Some rings else None
  | _ => None
  end.

Definition coordsToMultiPolygon (coords : any) : option orb.MultiPolygon :=
  match coords with
  | Slice coordsArray =>
      let polygons :=
        fold_left
          (fun polygons polygonCoords =>
             match coordsToPolygon polygonCoords with
             | Some polygon => polygons ++ [polygon]
             | None => polygons
             end)
          coordsArray [] in
      if (0 <? length polygons)%nat then Some polygons else None
  | _ => None
  end.

(** The geometry part of the loop of [NewCountryCoder]: the decoded message
    must be an object with a string "type" and a "coordinates" member. *)
Definition parseGeometry (raw : any) : option orb.Geometry :=
  match raw with
  | Map geomData =>
      match geomData !! "type" with
      | Some (Str geomType) =>
          match geomData !! "coordinates" with
          | Some coords =>
              if bool_decide (geomType = "Polygon") then
                orb.GPolygon <$> coordsToPolygon coords
              else if bool_decide (geomType = "MultiPolygon") then
                orb.GMultiPolygon <$> coordsToMultiPolygon coords
              else if bool_decide (geomType = "Point") then
                match coords with
                | Slice (Float64 lng :: Float64 lat :: _) => Some (orb.GPoint (lng, lat))
                | _ => None
                end
              else None
          | None => None
          end
      | _ => None
      end
  | _ => None
  end.

(** The property bag the loader builds from the typed properties. *)
Definition propertyBag (p : region.RegionFeatureProperties) : gmap string any :=
  list_to_map
    [ ("id", Str (region.ID p));
      ("iso1A2", Str (region.ISO1A2 p));
      ("iso1A3", Str (region.ISO1A3 p));
      ("iso1N3", Str (region.ISO1N3 p));
      ("m49", Str (region.M49 p));
      ("wikidata", Str (region.Wikidata p));
      ("emojiFlag", Str (region.EmojiFlag p));
      ("ccTLD", Str (region.CCTLD p));
      ("nameEn", Str (region.NameEn p));
      ("aliases", StrSlice (region.Aliases p));
      ("country", Str (region.Country p));
      ("groups", StrSlice (region.Groups p));
      ("members", StrSlice (region.Members p));
      ("level", Str (region.Level p));
      ("isoStatus", Str (region.ISOStatus p));
      ("driveSide", Str (region.DriveSide p));
      ("callingCodes", StrSlice (region.CallingCodes p)) ].

Definition loadFeature (regionFeature : region.RegionFeature) : geojson.Feature :=
  {| geojson.Type_ := region.Type_ regionFeature;
     geojson.Properties := propertyBag (region.Properties regionFeature);
     geojson.Geometry := parseGeometry (region.Geometry regionFeature) |}.

(** The properties [cacheFeatureByIDs] indexes a feature under. *)
Definition idProps : list string :=
  ["id"; "iso1A2"; "iso1A3"; "iso1N3"; "m49"; "wikidata"; "emojiFlag"; "ccTLD"; "nameEn"].

(** ** The country coder *)

Section CountryCoder.

(** The ring test of orb's [planar] package, and the Unicode paths of
    [strings.ToUpper] and [strings.ToLower]. *)
Variable RingContains : orb.Ring -> orb.Point -> bool.
Variable mapUpper : string -> string.
Variable mapLower : string -> string.

(** [strings.ToUpper]: a string of ASCII bytes is mapped byte by byte, any
    other goes through [strings.Map(unicode.ToUpper, s)]. *)
Definition ToUpper (s : string) : string :=
  if allBytes isASCIIByte s then mapBytes upperByte s else mapUpper s.

Definition ToLower (s : string) : string :=
  if allBytes isASCIIByte s then mapBytes lowerByte s else mapLower s.

(** canonicalID normalizes an ID for lookup. *)
Definition canonicalID (id : string) : string :=
  if bool_decide (id = "") then ""
  else if HasPrefix id "." then ToUpper id
  else ToUpper (ReplaceAllString id).

(** The identifying strings [cacheFeatureByIDs] collects: the non-empty
    string properties of [idProps], then the aliases, read through the
    assertion [.([]interface{})]. *)
Definition featureIDs (feature : geojson.Feature) : list string :=
  let ids :=
    fold_left
      (fun ids prop =>
         match geojson.Properties feature !! prop with
         | Some (Str val) => if bool_decide (val = "") then ids else ids ++ [val]
         | _ => ids
         end)
      idProps [] in
  match geojson.Properties feature !! "aliases" with
  | Some (Slice aliases) =>
      fold_left
        (fun ids alias =>
           match alias with
           | Str aliasStr => ids ++ [aliasStr]
           | _ => ids
           end)
        aliases ids
  | _ => ids
  end.

(** The last loop of [cacheFeatureByIDs], for one identifier. *)
Definition cacheID (feature : geojson.Feature) (cc : CountryCoder) (id : string) : CountryCoder :=
  let cid := canonicalID id in
  if bool_decide (cid = "") then cc
  else {| features := features cc;
          featuresByCode := <[cid := feature]> (featuresByCode cc);
          levels := levels cc |}.

(** cacheFeatureByIDs caches a feature by its identifying strings for rapid
    lookup. *)
Definition cacheFeatureByIDs (cc : CountryCoder) (feature : geojson.Feature) : CountryCoder :=
  fold_left (cacheID feature) (featureIDs feature) cc.

(** The body of the loop of NewCountryCoder: the feature is converted,
    appended to the list and indexed. *)
Definition loadStep (cc : CountryCoder) (regionFeature : region.RegionFeature) : CountryCoder :=
  let feature := loadFeature regionFeature in
  cacheFeatureByIDs
    {| features := features cc ++ [feature];
       featuresByCode := featuresByCode cc;
       levels := levels cc |}
    feature.

(** NewCountryCoder creates a new country coder, here from the decoded
    collection on. *)
Definition NewCountryCoder (collection : region.RegionFeatureCollection) : CountryCoder :=
  fold_left loadStep (region.Features collection)
    {| features := []; featuresByCode := ∅; levels := defaultLevels |}.

(** The loop of SmallestFeature over the features that remain. *)
Fixpoint smallestIn (fs : list geojson.Feature) (pt : orb.Point) : option geojson.Feature :=
  match fs with
  | [] => None
  | feature :: rest =>
      match geojson.Geometry feature with
      | None => smallestIn rest pt
      | Some (orb.GPolygon geom) =>
          if planar.PolygonContains RingContains geom pt then Some feature
          else smallestIn rest pt
      | Some (orb.GMultiPolygon geom) =>
          if planar.MultiPolygonContains RingContains geom pt then Some feature
          else smallestIn rest pt
      | Some _ => smallestIn rest pt
      end
  end.

(** SmallestFeature returns the smallest feature of any kind containing the
    location. *)
Definition SmallestFeature (cc : CountryCoder) (lat lng : float) : option geojson.Feature :=
  let pt : orb.Point := (lng, lat) in
  smallestIn (features cc) pt.

(** FeatureForID returns the feature with an identifying property matching
    id. *)
Definition FeatureForID (cc : CountryCoder) (id : string) : option geojson.Feature :=
  let cid := canonicalID id in
  featuresByCode cc !! cid.

(** countryFeature returns the country feature containing the location. *)
Definition countryFeature (cc : CountryCoder) (lat lng : float) : option geojson.Feature :=
  match SmallestFeature cc lat lng with
  | None => None
  | Some feature =>
      match geojson.Properties feature !! "country" with
      | Some (Str (String c country)) => FeatureForID cc (String c country)
      | _ =>
          match geojson.Properties feature !! "iso1A2" with
          | Some (Str (String c iso1A2)) => FeatureForID cc (String c iso1A2)
          | _ => Some feature
          end
      end
  end.

(** hasProperty checks if feature has the given property. *)
Definition hasProperty (feature : geojson.Feature) (prop : string) : bool :=
  match geojson.Properties feature !! prop with
  | Some (Str str) => negb (bool_decide (str = ""))
  | Some Nil => false
  | Some _ => true
  | None => false
  end.

Fixpoint levelIndexFrom (i : Z) (ls : list string) (level : string) : Z :=
  match ls with
  | [] => (-1)%Z
  | l :: rest => if bool_decide (l = level) then i else levelIndexFrom (i + 1)%Z rest level
  end.

(** levelIndex returns the index of a level in the hierarchy. *)
Definition levelIndex (cc : CountryCoder) (level : string) : Z :=
  levelIndexFrom 0%Z (levels cc) level.

(** matchesLevel checks if feature matches the target level or acceptable
    range. *)
Definition matchesLevel (cc : CountryCoder) (feature : geojson.Feature)
    (targetLevel maxLevel : string) : bool :=
  match geojson.Properties feature !! "level" with
  | Some (Str level) =>
      if bool_decide (level = targetLevel) then true
      else
        let levelIndex_ := levelIndex cc level in
        let targetLevelIndex := levelIndex cc targetLevel in
        let maxLevelIndex := levelIndex cc maxLevel in
        (targetLevelIndex <? levelIndex_)%Z && (levelIndex_ <=? maxLevelIndex)%Z
  | _ => false
  end.

(** The walk up the hierarchy through the groups of the smallest feature. *)
Fixpoint walkGroups (cc : CountryCoder) (groups : list any)
    (targetLevel maxLevel withProp : string) : option geojson.Feature :=
  match groups with
  | [] => None
  | Str groupIDStr :: rest =>
      match FeatureForID cc groupIDStr with
      | Some groupFeature =>
          if matchesLevel cc groupFeature targetLevel maxLevel
             && (bool_decide (withProp = "") || hasProperty groupFeature withProp)
          then Some groupFeature
          else walkGroups cc rest targetLevel maxLevel withProp
      | None => walkGroups cc rest targetLevel maxLevel withProp
      end
  | _ :: rest => walkGroups cc rest targetLevel maxLevel withProp
  end.

Definition targetLevelOf (opts : CodingOptions) : string :=
  if bool_decide (Level opts = "") then "country" else Level opts.

Definition maxLevelOf (opts : CodingOptions) : string :=
  if bool_decide (MaxLevel opts = "") then "world" else MaxLevel opts.

(** The fast path of featureForLoc for country-level coding: [None] when
    the code falls through to the general path. *)
Definition fastPath (cc : CountryCoder) (lat lng : float) (opts : CodingOptions)
    : option geojson.Feature :=
  if bool_decide (targetLevelOf opts = "country") then
    match countryFeature cc lat lng with
    | Some feature =>
        if bool_decide (WithProp opts = "") || hasProperty feature (WithProp opts)
        then Some feature
        else None
    | None => None
    end
  else None.

(** The general path of featureForLoc: find the smallest feature and walk
    up the hierarchy. *)
Definition generalPath (cc : CountryCoder) (lat lng : float) (opts : CodingOptions)
    : option geojson.Feature :=
  let targetLevel := targetLevelOf opts in
  let maxLevel := maxLevelOf opts in
  let withProp := WithProp opts in
  match SmallestFeature cc lat lng with
  | None => None
  | Some smallest =>
      let targetLevelIndex := levelIndex cc targetLevel in
      let maxLevelIndex := levelIndex cc maxLevel in
      if (targetLevelIndex =? -1)%Z || (maxLevelIndex =? -1)%Z
         || (maxLevelIndex <? targetLevelIndex)%Z
      then None
      else if matchesLevel cc smallest targetLevel maxLevel
              && (bool_decide (withProp = "") || hasProperty smallest withProp)
      then Some smallest
      else
        match geojson.Properties smallest !! "groups" with
        | Some (Slice groups) => walkGroups cc groups targetLevel maxLevel withProp
        | _ => None
        end
  end.

(** featureForLoc returns the feature containing the location for the given
    options. *)
Definition featureForLoc (cc : CountryCoder) (lat lng : float) (opts : CodingOptions)
    : option geojson.Feature :=
  match fastPath cc lat lng opts with
  | Some feature => Some feature
  | None => generalPath cc lat lng opts
  end.

(** The string a property holds, as the assertion [.(string)] reads it. *)
Definition stringProp (feature : geojson.Feature) (prop : string) : option string :=
  match geojson.Properties feature !! prop with
  | Some (Str s) => Some s
  | _ => None
  end.

(** ISO1A2Code returns the ISO 3166-1 alpha-2 code for the location. *)
Definition ISO1A2Code (cc : CountryCoder) (lat lng : float) : string :=
  let opts := {| Level := ""; MaxLevel := ""; WithProp := "iso1A2" |} in
  match featureForLoc cc lat lng opts with
  | None => ""
  | Some feature =>
      match stringProp feature "iso1A2" with
      | Some code => code
      | None => ""
      end
  end.

(** NameEn returns the English name for the location. *)
Definition NameEn (cc : CountryCoder) (lat lng : float) : string :=
  match featureForLoc cc lat lng {| Level := "country"; MaxLevel := ""; WithProp := "" |} with
  | None => ""
  | Some feature =>
      match stringProp feature "nameEn" with
      | Some name => name
      | None => ""
      end
  end.

(** NameEnByCode returns the English name for the given country code. *)
Definition NameEnByCode (cc : CountryCoder) (code : string) : string :=
  match FeatureForID cc code with
  | None => ToUpper code
  | Some feature =>
      match stringProp feature "nameEn" with
      | Some name => name
      | None => ToUpper code
      end
  end.

(** getCodeFromFeature extracts country code from feature (for
    compatibility). *)
Definition getCodeFromFeature (feature : geojson.Feature) : string :=
  match stringProp feature "country" with
  | Some (String c country) => ToLower (String c country)
  | _ =>
      match stringProp feature "nameEn" with
      | Some (String c nameEn) => ToLower (String c nameEn)
      | _ =>
          match stringProp feature "iso1A2" with
          | Some (String c iso1A2) => ToLower (String c iso1A2)
          | _ => "??"
          end
      end
  end.

(** The fallback loop of CodeByLocation. *)
Fixpoint oldMethod (fs : list geojson.Feature) (pt : orb.Point) : string :=
  match fs with
  | [] => "??"
  | feature :: rest =>
      match geojson.Geometry feature with
      | Some (orb.GPolygon geom) =>
          if planar.PolygonContains RingContains geom pt then getCodeFromFeature feature
          else oldMethod rest pt
      | Some (orb.GMultiPolygon geom) =>
          if planar.MultiPolygonContains RingContains geom pt then getCodeFromFeature feature
          else oldMethod rest pt
      | _ => oldMethod rest pt
      end
  end.

(** CodeByLocation returns the country code for the location (falls back to
    old method if needed). *)
Definition CodeByLocation (cc : CountryCoder) (lat lng : float) : string :=
  let code := ISO1A2Code cc lat lng in
  if negb (bool_decide (code = "")) then ToLower code
  else
    let pt : orb.Point := (lng, lat) in
    oldMethod (features cc) pt.

(** The query of Feature, by the cases of its type switch: a string, a
    []float64, a [2]float64, or a value of any other type. *)
Inductive Query : Type :=
| QueryString (v : string)
| QuerySlice (v : list float)
| QueryArray (v0 v1 : float)
| QueryOther.

(** Feature returns the feature matching the given arguments; [opts] is
    [None] for the nil pointer. *)
Definition Feature (cc : CountryCoder) (query : Query) (opts : option CodingOptions)
    : option geojson.Feature :=
  let opts :=
    match opts with
    | None => {| Level := "country"; MaxLevel := ""; WithProp := "" |}
    | Some opts => opts
    end in
  match query with
  | QueryString v => FeatureForID cc v
  | QuerySlice (v0 :: v1 :: _) => featureForLoc cc v1 v0 opts
  | QuerySlice _ => None
  | QueryArray v0 v1 => featureForLoc cc v1 v0 opts
  | QueryOther => None
  end.

(** geometryContainsPoint checks if geometry contains point. *)
Definition geometryContainsPoint (geom : gmap string any) (pt : orb.Point) : bool :=
  match geom !! "type" with
  | Some (Str geomType) =>
      match geom !! "coordinates" with
      | Some coords =>
          if bool_decide (geomType = "Polygon") then
            match coordsToPolygon coords with
            | Some polygon => planar.PolygonContains RingContains polygon pt
            | None => false
            end
          else if bool_decide (geomType = "MultiPolygon") then
            match coordsToMultiPolygon coords with
            | Some multiPolygon => planar.MultiPolygonContains RingContains multiPolygon pt
            | None => false
            end
          else false
      | None => false
      end
  | _ => false
  end.

(** ** What the specification says of containment

    A polygon covers a point of its outer ring that no hole holds; a feature
    covers a point when its polygon does, or one of the polygons of its
    multipolygon.  A feature with a point geometry or without geometry
    covers nothing. *)

Definition polygonCovers (p : orb.Polygon) (pt : orb.Point) : Prop :=
  exists outer holes,
    p = outer :: holes
    /\ RingContains outer pt = true
    /\ forall hole, hole ∈ holes -> RingContains hole pt = false.

Definition covers (feature : geojson.Feature) (pt : orb.Point) : Prop :=
  match geojson.Geometry feature with
  | Some (orb.GPolygon p) => polygonCovers p pt
  | Some (orb.GMultiPolygon mp) => exists p, p ∈ mp /\ polygonCovers p pt
  | _ => False
  end.

(** A feature with a point geometry, taken as one without geometry. *)
Definition dropPoint (feature : geojson.Feature) : geojson.Feature :=
  match geojson.Geometry feature with
  | Some (orb.GPoint _) =>
      {| geojson.Type_ := geojson.Type_ feature;
         geojson.Properties := geojson.Properties feature;
         geojson.Geometry := None |}
  | _ => feature
  end.

Definition dropPoints (cc : CountryCoder) : CountryCoder :=
  {| features := dropPoint <$> features cc;
     featuresByCode := featuresByCode cc;
     levels := levels cc |}.

(** ** What the specification says of coordinate parsing

    An entry of a ring is kept when its first two components are numbers;
    the point is made of these two. *)

Definition isNumber (v : any) : bool :=
  match v with
  | Float64 _ => true
  | _ => false
  end.

Definition validEntry (entry : any) : bool :=
  match entry with
  | Slice components =>
      match components !! 0%nat, components !! 1%nat with
      | Some x, Some y => isNumber x && isNumber y
      | _, _ => false
      end
  | _ => false
  end.

Definition numberOf (v : option any) : float :=
  match v with
  | Some (Float64 f) => f
  | _ => 0%float
  end.

Definition entryPoint (entry : any) : orb.Point :=
  match entry with
  | Slice components => (numberOf (components !! 0%nat), numberOf (components !! 1%nat))
  | _ => (0%float, 0%float)
  end.

Definition keptPoints (ring : any) : list orb.Point :=
  match ring with
  | Slice entries => entryPoint <$> filter (fun e => validEntry e = true) entries
  | _ => []
  end.

Definition keptRings (blocks : list any) : list orb.Ring :=
  filter (fun ring => ring <> []) (keptPoints <$> blocks).

Definition keptPolygon (coords : any) : option orb.Polygon :=
  match coords with
  | Slice blocks =>
      match keptRings blocks with
      | [] => None
      | rings => Some rings
      end
  | _ => None
  end.

Definition keptMultiPolygon (coords : any) : option orb.MultiPolygon :=
  match coords with
  | Slice blocks =>
      match omap keptPolygon blocks with
      | [] => None
      | polygons => Some polygons
      end
  | _ => None
  end.

(** ** Example datasets *)

Definition regionProps (id iso1A2 nameEn country level : string) (groups : list string)
    : region.RegionFeatureProperties :=
  {| region.ID := id; region.ISO1A2 := iso1A2; region.ISO1A3 := "";
     region.ISO1N3 := ""; region.M49 := ""; region.Wikidata := "";
     region.EmojiFlag := ""; region.CCTLD := ""; region.NameEn := nameEn;
     region.Aliases := []; region.Country := country; region.Groups := groups;
     region.Members := []; region.Level := level; region.ISOStatus := "";
     region.DriveSide := ""; region.CallingCodes := [] |}.

Definition regionFeature (p : region.RegionFeatureProperties) (geometry : any)
    : region.RegionFeature :=
  {| region.Type_ := "Feature"; region.Properties := p; region.Geometry := geometry |}.

Definition geometryMessage (type : string) (coordinates : any) : any :=
  Map (list_to_map [("type", Str type); ("coordinates", coordinates)]).

Definition position (lng lat : float) : any := Slice [Float64 lng; Float64 lat].

(** The rectangle spanning longitude -130..-60 and latitude 20..50. *)
Definition rectangle : any :=
  Slice [ Slice [ position (-130) 20; position (-60) 20;
                  position (-60) 50; position (-130) 50 ] ].

(** Scenario 1: a country "US" with the rectangle, and "EARTH" without
    geometry. *)
Definition usRegion : region.RegionFeature :=
  regionFeature (regionProps "US" "" "" "" "country" []) (geometryMessage "Polygon" rectangle).

Definition earthRegion : region.RegionFeature :=
  regionFeature (regionProps "EARTH" "" "" "" "world" []) Nil.

Definition scenario1 : region.RegionFeatureCollection :=
  {| region.CollectionType := "FeatureCollection";
     region.Features := [usRegion; earthRegion] |}.

(** A territory that names no country and has no ISO code. *)
Definition atollRegion : region.RegionFeature :=
  regionFeature (regionProps "Q1" "" "Atoll" "" "territory" [])
    (geometryMessage "Polygon" rectangle).

Definition loneTerritory : region.RegionFeatureCollection :=
  {| region.CollectionType := "FeatureCollection"; region.Features := [atollRegion] |}.

(** A territory whose country is not in the dataset. *)
Definition orphanRegion : region.RegionFeature :=
  regionFeature (regionProps "PR" "PR" "Puerto Rico" "US" "territory" [])
    (geometryMessage "Polygon" rectangle).

Definition orphanTerritory : region.RegionFeatureCollection :=
  {| region.CollectionType := "FeatureCollection"; region.Features := [orphanRegion] |}.

(** A region that is indexed by its code and has no English name. *)
Definition namelessRegion : region.RegionFeatureCollection :=
  {| region.CollectionType := "FeatureCollection";
     region.Features := [ regionFeature (regionProps "ZZ" "ZZ" "" "" "country" []) Nil ] |}.

(** Scenario 2: "FR" lists the union "EU" among its groups. *)
Definition euRegion : region.RegionFeature :=
  regionFeature (regionProps "EU" "EU" "European Union" "" "union" []) Nil.

Definition scenario2 : region.RegionFeatureCollection :=
  {| region.CollectionType := "FeatureCollection";
     region.Features :=
       [ regionFeature (regionProps "FR" "FR" "France" "" "country" ["EU"])
           (geometryMessage "Polygon" rectangle);
         euRegion ] |}.

(** A country whose ISO code spells a stop word in lower case. *)
Definition deRegion : region.RegionFeature :=
  regionFeature (regionProps "DE" "DE" "Germany" "" "country" [])
    (geometryMessage "Polygon" rectangle).

Definition germany : region.RegionFeatureCollection :=
  {| region.CollectionType := "FeatureCollection"; region.Features := [deRegion] |}.

Definition isoOptions : CodingOptions := {| Level := ""; MaxLevel := ""; WithProp := "iso1A2" |}.

Definition defaultOptions : CodingOptions := {| Level := ""; MaxLevel := ""; WithProp := "" |}.

(** ** Auxiliary notions

    The bodies of the loops, named, and the bytes the filter leaves alone. *)

(** A byte that is neither a lower-case letter nor in the bracket class. *)
Definition plainByte (c : ascii) : bool := negb (isLower c) && negb (inFilterClass c).

(** The point an entry of a ring yields in [coordsToPolygon]. *)
Definition pointOf (entry : any) : option orb.Point :=
  match entry with
  | Slice (Float64 lng :: Float64 lat :: _) => Some (lng, lat)
  | _ => None
  end.

(** The ring a block of coordinates yields in [coordsToPolygon]. *)
Definition ringOf (ring : any) : option orb.Ring :=
  match ring with
  | Slice ringArray =>
      let points := ringPoints ringArray in
      if (0 <? length points)%nat then Some points else None
  | _ => None
  end.

(** The test the loop of SmallestFeature applies to one feature. *)
Definition contains (feature : geojson.Feature) (pt : orb.Point) : bool :=
  match geojson.Geometry feature with
  | Some (orb.GPolygon geom) => planar.PolygonContains RingContains geom pt
  | Some (orb.GMultiPolygon geom) => planar.MultiPolygonContains RingContains geom pt
  | _ => false
  end.

(** The levels a request accepts once it has passed the check of the
    general path. *)
Definition inRange (cc : CountryCoder) (opts : CodingOptions) (feature : geojson.Feature) : Prop :=
  exists level,
    stringProp feature "level" = Some level
    /\ (0 <= levelIndex cc (targetLevelOf opts) <= levelIndex cc level)%Z
    /\ (levelIndex cc level <= levelIndex cc (maxLevelOf opts))%Z.

(** A feature that has an identifying string with the canonical form [k];
    the empty key is never cached. *)
Definition claimsKey (k : string) (feature : geojson.Feature) : bool :=
  negb (bool_decide (k = ""))
  && existsb (fun id => bool_decide (canonicalID id = k)) (featureIDs feature).

(** The strings of a list that are not empty, in order. *)
Definition nonEmpty (l : list string) : list string :=
  filter (fun s => s <> "") l.

(** The bytes of a string that satisfy [p], in order. *)
Fixpoint filterBytes (p : ascii -> bool) (s : string) : string :=
  match s with
  | EmptyString => EmptyString
  | String c rest => if p c then String c (filterBytes p rest) else filterBytes p rest
  end.

(** A geometry whose polygons have a ring and whose rings have a point. *)
Definition ringsInRange (p : orb.Polygon) : Prop :=
  p <> [] /\ Forall (fun ring : orb.Ring => ring <> []) p.

Definition geometryInRange (feature : geojson.Feature) : Prop :=
  match geojson.Geometry feature with
  | Some (orb.GPolygon p) => ringsInRange p
  | Some (orb.GMultiPolygon mp) => mp <> [] /\ Forall ringsInRange mp
  | _ => True
  end.

(** The GeoJSON coordinates of a polygon and of a multipolygon: a list of
    rings, each a list of [longitude, latitude] positions. *)
Definition ringCoordinates (ring : orb.Ring) : any :=
  Slice ((fun pt : orb.Point => Slice [Float64 (fst pt); Float64 (snd pt)]) <$> ring).

Definition polygonCoordinates (p : orb.Polygon) : any :=
  Slice (ringCoordinates <$> p).

Definition multiPolygonCoordinates (mp : orb.MultiPolygon) : any :=
  Slice (polygonCoordinates <$> mp).

(** No stop word of the filter matches at any position of the text. *)
Fixpoint stopWordFree (before : option ascii) (s : string) : bool :=
  match s with
  | EmptyString => true
  | String c rest =>
      match matchWords before s stopWords with
      | Some _ => false
      | None => stopWordFree (Some c) rest
      end
  end.

(** * Properties *)

(** ** Bytes *)

Ltac by_bytes c := destruct c as [[] [] [] [] [] [] [] []]; vm_compute; reflexivity.

Lemma upperByte_idem c : upperByte (upperByte c) = upperByte c.
Proof. by_bytes c. Qed.

Lemma upperByte_not_lower c : isLower (upperByte c) = false.
Proof. by_bytes c. Qed.

Lemma upperByte_class c : inFilterClass (upperByte c) = inFilterClass c.
Proof. by_bytes c. Qed.

Lemma upperByte_ascii c : isASCIIByte (upperByte c) = isASCIIByte c.
Proof. by_bytes c. Qed.

Lemma allBytes_mapBytes p f s : allBytes p (mapBytes f s) = allBytes (fun c => p (f c)) s.
Proof. induction s as [|c s IH]; simpl; [done | by rewrite IH]. Qed.

Lemma allBytes_ext p q s : (forall c, p c = q c) -> allBytes p s = allBytes q s.
Proof. intros E. induction s as [|c s IH]; simpl; [done | by rewrite E, IH]. Qed.

Lemma allBytes_true p s : (forall c, p c = true) -> allBytes p s = true.
Proof. intros E. induction s as [|c s IH]; simpl; [done | by rewrite E, IH]. Qed.

Lemma mapBytes_upper_idem s : mapBytes upperByte (mapBytes upperByte s) = mapBytes upperByte s.
Proof. induction s as [|c s IH]; simpl; [done | by rewrite upperByte_idem, IH]. Qed.

Lemma mapBytes_upper_ascii s :
  allBytes isASCIIByte (mapBytes upperByte s) = allBytes isASCIIByte s.
Proof. rewrite allBytes_mapBytes. apply allBytes_ext, upperByte_ascii. Qed.

(** ** The filter *)

Lemma matchWord_length before s w n : matchWord before s w = Some n -> n = String.length w.
Proof. unfold matchWord. case_match; congruence. Qed.

Lemma matchWords_positive before s n : matchWords before s stopWords = Some n -> (0 < n)%nat.
Proof.
  unfold stopWords. cbn [matchWords]. intros H.
  repeat (match type of H with
          | match matchWord ?b ?t ?w with _ => _ end = _ =>
              let E := fresh "E" in
              destruct (matchWord b t w) eqn:E;
              [apply matchWord_length in E; simpl in E; simplify_eq; lia |]
          end).
  discriminate.
Qed.

Lemma idFilterRegex_class before c rest :
  idFilterRegex before (String c rest) = 0%nat -> inFilterClass c = false.
Proof.
  unfold idFilterRegex. destruct (matchWords _ _ _) as [n|] eqn:E.
  - apply matchWords_positive in E. lia.
  - destruct (inFilterClass c); [discriminate | done].
Qed.

Lemma matchWord_lower before c rest p w :
  isLower p = true -> isLower c = false -> matchWord before (String c rest) (String p w) = None.
Proof.
  intros Hp Hc. unfold matchWord. simpl. case_bool_decide; [congruence | done].
Qed.

Lemma idFilterRegex_plain before c rest :
  plainByte c = true -> idFilterRegex before (String c rest) = 0%nat.
Proof.
  unfold plainByte. intros [Hl Hc]%andb_prop.
  apply negb_true_iff in Hl. apply negb_true_iff in Hc.
  unfold idFilterRegex, stopWords. simpl matchWords.
  rewrite !matchWord_lower by done. by rewrite Hc.
Qed.

Lemma replaceAllFrom_plain before s :
  allBytes plainByte s = true -> replaceAllFrom before 0 s = s.
Proof.
  revert before. induction s as [|c s IH]; intros before H; simpl in *; [done |].
  apply andb_prop in H as [Hc Hs].
  rewrite (idFilterRegex_plain _ _ _ Hc). by rewrite IH.
Qed.

Lemma replaceAllFrom_no_class before skip s :
  allBytes (fun c => negb (inFilterClass c)) (replaceAllFrom before skip s) = true.
Proof.
  revert before skip. induction s as [|c s IH]; intros before skip; [done |].
  cbn [replaceAllFrom]. destruct skip as [|k]; [| apply IH].
  destruct (idFilterRegex before (String c s)) eqn:E; [| apply IH].
  cbn [allBytes]. by rewrite (idFilterRegex_class _ _ _ E), IH.
Qed.

Lemma allBytes_plain s :
  allBytes (fun c => negb (isLower c)) s = true ->
  allBytes (fun c => negb (inFilterClass c)) s = true ->
  allBytes plainByte s = true.
Proof.
  induction s as [|c s IH]; simpl; [done |].
  intros [? ?]%andb_prop [? ?]%andb_prop. unfold plainByte at 1.
  rewrite IH by done. by repeat (apply andb_true_intro; split).
Qed.

(** ** [strings.ToUpper] *)

Lemma ToUpper_ascii s : allBytes isASCIIByte s = true -> ToUpper s = mapBytes upperByte s.
Proof. unfold ToUpper. by intros ->. Qed.

Lemma ToUpper_idem s :
  UpperMapping ToUpper mapUpper -> ToUpper (ToUpper s) = ToUpper s.
Proof.
  intros H. unfold ToUpper at 2 3. destruct (allBytes isASCIIByte s) eqn:E.
  - rewrite ToUpper_ascii by (by rewrite mapBytes_upper_ascii).
    apply mapBytes_upper_idem.
  - apply (upper_idem _ _ H).
Qed.

Lemma ToUpper_no_lower s :
  UpperMapping ToUpper mapUpper -> allBytes (fun c => negb (isLower c)) (ToUpper s) = true.
Proof.
  intros H. unfold ToUpper. destruct (allBytes isASCIIByte s).
  - rewrite allBytes_mapBytes. apply allBytes_true. intros c.
    by rewrite upperByte_not_lower.
  - apply (upper_no_lower _ _ H).
Qed.

Lemma ToUpper_no_class s :
  UpperMapping ToUpper mapUpper ->
  allBytes (fun c => negb (inFilterClass c)) s = true ->
  allBytes (fun c => negb (inFilterClass c)) (ToUpper s) = true.
Proof.
  intros H Hs. unfold ToUpper. destruct (allBytes isASCIIByte s).
  - rewrite allBytes_mapBytes. rewrite <- Hs. apply allBytes_ext. intros c.
    by rewrite upperByte_class.
  - by apply (upper_no_class _ _ H).
Qed.

Lemma ToUpper_dot s :
  UpperMapping ToUpper mapUpper -> HasPrefix s "." = true -> HasPrefix (ToUpper s) "." = true.
Proof.
  intros H Hs. unfold ToUpper. destruct (allBytes isASCIIByte s).
  - destruct s as [|c s]; [done |]. simpl in *.
    apply andb_prop in Hs as [Hc _]. apply bool_decide_eq_true in Hc. subst c.
    reflexivity.
  - by apply (upper_dot _ _ H).
Qed.

(** A string in upper case that the filter leaves alone is a fixed point of
    the normaliser. *)
Lemma canonicalID_fixed u :
  ToUpper u = u ->
  allBytes (fun c => negb (isLower c)) u = true ->
  (HasPrefix u "." = false -> allBytes (fun c => negb (inFilterClass c)) u = true) ->
  canonicalID u = u.
Proof.
  intros Hup Hlow Hcls. unfold canonicalID.
  case_bool_decide; [done |].
  destruct (HasPrefix u ".") eqn:Hdot; [done |].
  unfold ReplaceAllString. rewrite replaceAllFrom_plain; [done |].
  apply allBytes_plain; auto.
Qed.

(** The filter only deletes bytes. *)
Lemma replaceAllFrom_allBytes p before skip s :
  allBytes p s = true -> allBytes p (replaceAllFrom before skip s) = true.
Proof.
  revert before skip. induction s as [|c s IH]; intros before skip H; [done |].
  cbn [allBytes] in H. apply andb_prop in H as [Hc Hs].
  cbn [replaceAllFrom]. destruct skip as [|k]; [| by apply IH].
  destruct (idFilterRegex before (String c s)); [| by apply IH].
  cbn [allBytes]. by rewrite Hc, IH.
Qed.

(** On ASCII identifiers idempotence rests on nothing but the code. *)
Lemma canonicalID_idempotent_ascii s :
  allBytes isASCIIByte s = true -> canonicalID (canonicalID s) = canonicalID s.
Proof.
  intros Ha.
  assert (forall t, allBytes isASCIIByte t = true ->
            ToUpper (ToUpper t) = ToUpper t
            /\ allBytes (fun c => negb (isLower c)) (ToUpper t) = true) as Hup.
  { intros t Ht. rewrite (ToUpper_ascii t Ht).
    rewrite ToUpper_ascii by (by rewrite mapBytes_upper_ascii).
    split; [apply mapBytes_upper_idem |].
    rewrite allBytes_mapBytes. apply allBytes_true. intros c.
    by rewrite upperByte_not_lower. }
  unfold canonicalID at 2 3. case_bool_decide; [done |].
  destruct (HasPrefix s ".") eqn:Hdot.
  - destruct (Hup s Ha). apply canonicalID_fixed; [done.. |].
    intros Hno. rewrite ToUpper_ascii in Hno by done.
    destruct s as [|c s]; [done |]. simpl in Hdot, Hno.
    apply andb_prop in Hdot as [Hc _]. apply bool_decide_eq_true in Hc. by subst c.
  - assert (allBytes isASCIIByte (ReplaceAllString s) = true) as Hr
      by (by apply replaceAllFrom_allBytes).
    destruct (Hup _ Hr). apply canonicalID_fixed; [done.. |].
    intros _. rewrite ToUpper_ascii by done. rewrite allBytes_mapBytes.
    rewrite <- (replaceAllFrom_no_class None 0 s). apply allBytes_ext. intros c.
    by rewrite upperByte_class.
Qed.

(** C6. The normaliser is idempotent, maps the empty string to itself, and
    only upper-cases an identifier that starts with a dot (".de" gives ".DE",
    ".la" gives ".LA"): on ASCII input every byte is kept, the letters in
    upper case. *)
Theorem canonicalID_idempotent :
  UpperMapping ToUpper mapUpper ->
  (forall s, canonicalID (canonicalID s) = canonicalID s)
  /\ canonicalID "" = ""
  /\ (forall s, HasPrefix s "." = true ->
        canonicalID s = ToUpper s
        /\ (allBytes isASCIIByte s = true -> canonicalID s = mapBytes upperByte s))
  /\ canonicalID ".de" = ".DE"
  /\ canonicalID ".la" = ".LA".
Proof.
  intros H. split_and!; [| done | | done..].
  - intros s. unfold canonicalID at 2 3.
    case_bool_decide; [done |].
    destruct (HasPrefix s ".") eqn:Hdot.
    + apply canonicalID_fixed; auto using ToUpper_idem, ToUpper_no_lower.
      intros Hno. by rewrite ToUpper_dot in Hno.
    + apply canonicalID_fixed; auto using ToUpper_idem, ToUpper_no_lower.
      intros _. apply ToUpper_no_class; [done |]. apply replaceAllFrom_no_class.
  - intros s Hdot. assert (canonicalID s = ToUpper s) as E.
    { unfold canonicalID. case_bool_decide; [by subst s |]. by rewrite Hdot. }
    split; [done |]. intros Ha. by rewrite E, ToUpper_ascii.
Qed.

(** C2. The stop words are matched as written, in lower case: "The" stays,
    so "The United States" does not get the key of "united-states" and
    "UnitedStates"; "the united states" does. *)
Theorem canonicalID_stop_words_case :
  canonicalID "The United States" = "THEUNITEDSTATES"
  /\ canonicalID "united-states" = "UNITEDSTATES"
  /\ canonicalID "UnitedStates" = "UNITEDSTATES"
  /\ canonicalID "the united states" = "UNITEDSTATES".
Proof. repeat split; reflexivity. Qed.

(** An identifier that is a stop word, such as the lower-case ISO codes
    "de" and "la", is filtered away whole; in upper case it is kept. *)
Lemma canonicalID_stop_word_code :
  canonicalID "de" = "" /\ canonicalID "la" = "" /\ canonicalID "DE" = "DE".
Proof. repeat split; reflexivity. Qed.

(** Outside the dot case no byte of the bracket class is left. *)
Lemma canonicalID_no_class s :
  UpperMapping ToUpper mapUpper ->
  HasPrefix s "." = false ->
  allBytes (fun c => negb (inFilterClass c)) (canonicalID s) = true.
Proof.
  intros H Hdot. unfold canonicalID. case_bool_decide; [done |]. rewrite Hdot.
  apply ToUpper_no_class; [done |]. apply replaceAllFrom_no_class.
Qed.

(** ** Coordinate parsing *)

Lemma ringPoints_from entries acc :
  fold_left
    (fun points point =>
       match point with
       | Slice (Float64 lng :: Float64 lat :: _) => points ++ [(lng, lat)]
       | _ => points
       end)
    entries acc
  = acc ++ omap pointOf entries.
Proof.
  revert acc. induction entries as [|e entries IH]; intros acc; simpl.
  - by rewrite app_nil_r.
  - rewrite IH. unfold pointOf at 2.
    destruct e as [| | | |[|[] [|[] ?]]| |]; simpl; try done.
    by rewrite <- app_assoc.
Qed.

Lemma pointOf_valid entry :
  pointOf entry = if validEntry entry then Some (entryPoint entry) else None.
Proof. by destruct entry as [| | | |[|[] [|[] ?]]| |]. Qed.

Lemma ringPoints_kept entries : ringPoints entries = keptPoints (Slice entries).
Proof.
  unfold ringPoints. rewrite ringPoints_from. simpl.
  induction entries as [|e entries IH]; [done |].
  cbn [omap list_omap]. rewrite pointOf_valid, filter_cons.
  destruct (validEntry e) eqn:E.
  - rewrite decide_True by done. by rewrite fmap_cons, <- IH.
  - rewrite decide_False by done. apply IH.
Qed.

Lemma rings_from blocks acc :
  fold_left
    (fun rings ring =>
       match ring with
       | Slice ringArray =>
           let points := ringPoints ringArray in
           if (0 <? length points)%nat then rings ++ [points] else rings
       | _ => rings
       end)
    blocks acc
  = acc ++ omap ringOf blocks.
Proof.
  revert acc. induction blocks as [|b blocks IH]; intros acc; simpl.
  - by rewrite app_nil_r.
  - rewrite IH. unfold ringOf at 2. destruct b; simpl; try done.
    destruct (0 <? length _)%nat; [by rewrite <- app_assoc | done].
Qed.

Lemma ringOf_points ring :
  ringOf ring = match keptPoints ring with [] => None | points => Some points end.
Proof.
  destruct ring as [| | | |entries| |]; try done.
  unfold ringOf. rewrite ringPoints_kept. by destruct (keptPoints _).
Qed.

Lemma ringOf_kept blocks : omap ringOf blocks = keptRings blocks.
Proof.
  unfold keptRings. induction blocks as [|b blocks IH]; [done |].
  cbn [omap list_omap]. rewrite fmap_cons, filter_cons, IH, ringOf_points.
  destruct (keptPoints b) eqn:K.
  - rewrite decide_False; [done | by intros H; apply H].
  - by rewrite decide_True by done.
Qed.

Lemma coordsToPolygon_kept coords : coordsToPolygon coords = keptPolygon coords.
Proof.
  destruct coords as [| | | |blocks| |]; try done.
  unfold coordsToPolygon, keptPolygon.
  rewrite rings_from, app_nil_l, ringOf_kept. cbv zeta.
  by destruct (keptRings blocks).
Qed.

Lemma polygons_from blocks acc :
  fold_left
    (fun polygons polygonCoords =>
       match coordsToPolygon polygonCoords with
       | Some polygon => polygons ++ [polygon]
       | None => polygons
       end)
    blocks acc
  = acc ++ omap keptPolygon blocks.
Proof.
  revert acc. induction blocks as [|b blocks IH]; intros acc; simpl.
  - by rewrite app_nil_r.
  - rewrite IH, coordsToPolygon_kept.
    destruct (keptPolygon b); [by rewrite <- app_assoc | done].
Qed.

(** C8. Parsing keeps in each ring the entries whose first two components
    are numbers, in order, drops a ring without such an entry and a polygon
    without ring, and answers nil where nothing is left or the coordinates
    are no list. *)
Theorem coordsToPolygon_keeps_valid :
  (forall coords, coordsToPolygon coords = keptPolygon coords)
  /\ (forall coords, coordsToMultiPolygon coords = keptMultiPolygon coords).
Proof.
  split; [apply coordsToPolygon_kept |].
  intros coords. destruct coords as [| | | |blocks| |]; try done.
  unfold coordsToMultiPolygon, keptMultiPolygon.
  rewrite polygons_from, app_nil_l. cbv zeta.
  by destruct (omap keptPolygon blocks).
Qed.

(** A parsed polygon has a ring, and each of its rings has a point: the
    index [p[0]] of the containment test is in range. *)
Lemma coordsToPolygon_rings coords p :
  coordsToPolygon coords = Some p -> p <> [] /\ Forall (fun ring => ring <> []) p.
Proof.
  rewrite coordsToPolygon_kept. destruct coords as [| | | |blocks| |]; try done.
  unfold keptPolygon. intros H.
  assert (p = keptRings blocks) as -> by (destruct (keptRings blocks); congruence).
  split; [by destruct (keptRings blocks) |].
  unfold keptRings. apply Forall_forall. by intros ring [? _]%list_elem_of_filter.
Qed.

Lemma coordsToMultiPolygon_rings coords mp :
  coordsToMultiPolygon coords = Some mp -> Forall (fun p : orb.Polygon => p <> []) mp.
Proof.
  destruct coords as [| | | |blocks| |]; try done.
  unfold coordsToMultiPolygon. rewrite polygons_from, app_nil_l. cbv zeta.
  intros H. assert (mp = omap keptPolygon blocks) as ->
    by (destruct (omap keptPolygon blocks); simpl in H; congruence).
  apply Forall_forall. intros p (b & _ & Hb)%list_elem_of_omap.
  rewrite <- coordsToPolygon_kept in Hb. by apply coordsToPolygon_rings in Hb as [? _].
Qed.

(** ** The loaded catalog *)

Lemma fold_left_step {A B} (f : A -> B -> A) (x : B) (l : list B) (a : A) :
  fold_left f (x :: l) a = fold_left f l (f a x).
Proof. reflexivity. Qed.

Lemma cacheID_features feature cc id :
  features (cacheID feature cc id) = features cc
  /\ levels (cacheID feature cc id) = levels cc.
Proof. unfold cacheID. cbv zeta. by case_bool_decide. Qed.

Lemma cacheFeatureByIDs_features cc feature :
  features (cacheFeatureByIDs cc feature) = features cc
  /\ levels (cacheFeatureByIDs cc feature) = levels cc.
Proof.
  unfold cacheFeatureByIDs. generalize (featureIDs feature). intros ids.
  revert cc. induction ids as [|id ids IH]; intros cc; [done |].
  rewrite fold_left_step. destruct (IH (cacheID feature cc id)) as [Ef El].
  destruct (cacheID_features feature cc id) as [Ef' El'].
  split; congruence.
Qed.

Lemma loadStep_features cc rf :
  features (loadStep cc rf) = features cc ++ [loadFeature rf]
  /\ levels (loadStep cc rf) = levels cc.
Proof.
  unfold loadStep. cbv zeta. generalize (loadFeature rf). intros feature.
  apply (cacheFeatureByIDs_features
           {| features := features cc ++ [feature];
              featuresByCode := featuresByCode cc;
              levels := levels cc |} feature).
Qed.

Lemma NewCountryCoder_from rfs cc :
  features (fold_left loadStep rfs cc) = features cc ++ (loadFeature <$> rfs)
  /\ levels (fold_left loadStep rfs cc) = levels cc.
Proof.
  revert cc. induction rfs as [|rf rfs IH]; intros cc.
  - by rewrite app_nil_r.
  - rewrite fold_left_step. destruct (IH (loadStep cc rf)) as [Ef El].
    destruct (loadStep_features cc rf) as [Ef' El'].
    rewrite Ef, El, Ef', El', fmap_cons, <- app_assoc.
    generalize (loadFeature rf) (loadFeature <$> rfs). intros f fs.
    split; reflexivity.
Qed.

(** The catalog lists the features in the order of the dataset, and ranks
    the levels by [defaultLevels]. *)
Lemma NewCountryCoder_features collection :
  features (NewCountryCoder collection) = loadFeature <$> region.Features collection
  /\ levels (NewCountryCoder collection) = defaultLevels.
Proof.
  apply (NewCountryCoder_from (region.Features collection)
           {| features := []; featuresByCode := ∅; levels := defaultLevels |}).
Qed.

(** No polygon of a loaded catalog is without rings: the containment test
    never indexes an empty polygon. *)
Lemma NewCountryCoder_polygons collection f :
  f ∈ features (NewCountryCoder collection) ->
  match geojson.Geometry f with
  | Some (orb.GPolygon p) => p <> []
  | Some (orb.GMultiPolygon mp) => Forall (fun p : orb.Polygon => p <> []) mp
  | _ => True
  end.
Proof.
  destruct (NewCountryCoder_features collection) as [-> _].
  intros (rf & -> & _)%list_elem_of_fmap. cbn [loadFeature geojson.Geometry].
  unfold parseGeometry. destruct (region.Geometry rf) as [| | | | |geomData|]; try done.
  destruct (geomData !! "type") as [[| | |geomType| | |]|]; try done.
  destruct (geomData !! "coordinates") as [coords|]; [| done].
  repeat case_bool_decide; try done.
  - destruct (coordsToPolygon coords) as [p|] eqn:E; [| done]. simpl.
    by apply coordsToPolygon_rings in E as [? _].
  - destruct (coordsToMultiPolygon coords) as [mp|] eqn:E; [| done]. simpl.
    by apply coordsToMultiPolygon_rings in E.
  - by destruct coords as [| | | |[|[] [|[] ?]]| |].
Qed.

(** A point geometry with two numeric coordinates is kept by the loader. *)
Lemma parseGeometry_point geomData lng lat rest :
  geomData !! "type" = Some (Str "Point") ->
  geomData !! "coordinates" = Some (Slice (Float64 lng :: Float64 lat :: rest)) ->
  parseGeometry (Map geomData) = Some (orb.GPoint (lng, lat)).
Proof. intros Ht Hc. unfold parseGeometry. by rewrite Ht, Hc. Qed.

(** The groups of a loaded feature are a []string: the assertion
    [.([]interface{})] of the walk does not hold for it. *)
Lemma loadFeature_groups rf :
  geojson.Properties (loadFeature rf) !! "groups"
  = Some (StrSlice (region.Groups (region.Properties rf))).
Proof. reflexivity. Qed.

(** ** Containment and the scan of the catalog *)

Lemma PolygonContains_covers p pt :
  planar.PolygonContains RingContains p pt = true <-> polygonCovers p pt.
Proof.
  unfold planar.PolygonContains, polygonCovers. destruct p as [|outer holes].
  - split; [done | by intros (? & ? & ? & _)].
  - rewrite andb_true_iff, forallb_forall. split.
    + intros [Ho Hh]. exists outer, holes. split_and!; [done.. |].
      intros hole Hin%list_elem_of_In. by apply negb_true_iff, Hh.
    + intros (o & h & E & Ho & Hh). simplify_eq. split; [done |].
      intros hole Hin%list_elem_of_In. by apply negb_true_iff, Hh.
Qed.

Lemma MultiPolygonContains_covers mp pt :
  planar.MultiPolygonContains RingContains mp pt = true
  <-> exists p, p ∈ mp /\ polygonCovers p pt.
Proof.
  unfold planar.MultiPolygonContains. rewrite existsb_exists. split.
  - intros (p & Hin%list_elem_of_In & Hp%PolygonContains_covers). eauto.
  - intros (p & Hin%list_elem_of_In & Hp%PolygonContains_covers). eauto.
Qed.

Lemma contains_covers feature pt : contains feature pt = true <-> covers feature pt.
Proof.
  unfold contains, covers. destruct (geojson.Geometry feature) as [[| |]|];
    auto using PolygonContains_covers, MultiPolygonContains_covers; by split.
Qed.

Lemma not_contains_covers feature pt : contains feature pt = false <-> ~ covers feature pt.
Proof. rewrite <- contains_covers. by destruct (contains feature pt). Qed.

Lemma smallestIn_cons feature rest pt :
  smallestIn (feature :: rest) pt
  = if contains feature pt then Some feature else smallestIn rest pt.
Proof.
  unfold contains. cbn [smallestIn].
  by destruct (geojson.Geometry feature) as [[| |]|].
Qed.

Lemma smallestIn_None fs pt :
  smallestIn fs pt = None <-> forall f, f ∈ fs -> ~ covers f pt.
Proof.
  induction fs as [|a fs IH].
  - split; [by intros _ f ?%not_elem_of_nil | done].
  - rewrite smallestIn_cons. destruct (contains a pt) eqn:Ha.
    + split; [done |]. intros H. apply contains_covers in Ha.
      destruct (H a); [left | done].
    + rewrite IH. apply not_contains_covers in Ha. split.
      * intros H f [-> | Hin]%elem_of_cons; auto.
      * intros H f Hin. apply H. by right.
Qed.

Lemma smallestIn_Some fs pt f :
  smallestIn fs pt = Some f
  <-> exists before after,
        fs = before ++ f :: after
        /\ covers f pt
        /\ forall g, g ∈ before -> ~ covers g pt.
Proof.
  induction fs as [|a fs IH].
  - split; [done |]. by intros ([|??] & ? & ? & _).
  - rewrite smallestIn_cons. destruct (contains a pt) eqn:Ha.
    + apply contains_covers in Ha. split.
      * intros [= <-]. exists [], fs. split_and!; [done.. |].
        by intros g ?%not_elem_of_nil.
      * intros ([|b before] & after & E & Hf & Hb); simplify_eq/=; [done |].
        destruct (Hb b); [left | done].
    + apply not_contains_covers in Ha. rewrite IH. split.
      * intros (before & after & -> & Hf & Hb). exists (a :: before), after.
        split_and!; [done.. |]. intros g [-> | Hin]%elem_of_cons; auto.
      * intros ([|b before] & after & E & Hf & Hb); simplify_eq/=; [done |].
        exists before, after. split_and!; [done.. |].
        intros g Hin. apply Hb. by right.
Qed.

(** C5. SmallestFeature answers the first feature in load order whose
    polygon covers the point (outer ring minus holes) or whose multipolygon
    has a polygon that does, and nil exactly when no feature covers it; of
    two features that cover the point, the one listed first is returned.
    The list of a loaded catalog is in the order of the dataset. *)
Theorem SmallestFeature_first_match :
  forall cc lat lng,
    (forall collection,
       features (NewCountryCoder collection) = loadFeature <$> region.Features collection)
    /\ (SmallestFeature cc lat lng = None
     <-> forall f, f ∈ features cc -> ~ covers f (lng, lat))
    /\ (forall f,
          SmallestFeature cc lat lng = Some f
          <-> exists before after,
                features cc = before ++ f :: after
                /\ covers f (lng, lat)
                /\ forall g, g ∈ before -> ~ covers g (lng, lat))
    /\ (forall a b between after,
          features cc = a :: between ++ b :: after ->
          covers a (lng, lat) -> covers b (lng, lat) ->
          SmallestFeature cc lat lng = Some a).
Proof.
  intros cc lat lng. unfold SmallestFeature. split_and!.
  - intros collection. apply NewCountryCoder_features.
  - apply smallestIn_None.
  - intros f. apply smallestIn_Some.
  - intros a b between after E Ha _. apply smallestIn_Some.
    exists [], (between ++ b :: after). split_and!; [done.. |].
    by intros g ?%not_elem_of_nil.
Qed.

(** ** Point geometries *)

Lemma contains_dropPoint feature pt : contains (dropPoint feature) pt = contains feature pt.
Proof.
  unfold dropPoint, contains.
  by destruct (geojson.Geometry feature) as [[| |]|] eqn:E; rewrite ?E.
Qed.

Lemma smallestIn_point fs pt f :
  smallestIn fs pt = Some f ->
  exists geom, geojson.Geometry f = Some geom /\ forall p, geom <> orb.GPoint p.
Proof.
  intros (before & after & _ & Hf & _)%smallestIn_Some. unfold covers in Hf.
  destruct (geojson.Geometry f) as [[| |]|]; [done | eauto.. | done].
Qed.

Lemma smallestIn_dropPoint fs pt :
  smallestIn (dropPoint <$> fs) pt = dropPoint <$> smallestIn fs pt.
Proof.
  induction fs as [|a fs IH]; [done |].
  rewrite fmap_cons, !smallestIn_cons, contains_dropPoint, IH.
  by destruct (contains a pt).
Qed.

Lemma dropPoint_covered f pt : contains f pt = true -> dropPoint f = f.
Proof.
  unfold contains, dropPoint. by destruct (geojson.Geometry f) as [[| |]|].
Qed.

Lemma SmallestFeature_dropPoints cc lat lng :
  SmallestFeature (dropPoints cc) lat lng = SmallestFeature cc lat lng.
Proof.
  unfold SmallestFeature, dropPoints. cbn [features].
  rewrite smallestIn_dropPoint.
  destruct (smallestIn (features cc) (lng, lat)) as [f|] eqn:E; [| done].
  apply smallestIn_Some in E as (_ & _ & _ & Hf & _).
  apply (proj2 (contains_covers _ _)) in Hf. simpl.
  by rewrite (dropPoint_covered _ _ Hf).
Qed.

Lemma oldMethod_dropPoint fs pt : oldMethod (dropPoint <$> fs) pt = oldMethod fs pt.
Proof.
  induction fs as [|a fs IH]; [done |]. rewrite fmap_cons. cbn [oldMethod].
  rewrite IH. unfold dropPoint.
  by destruct (geojson.Geometry a) as [[| |]|] eqn:E; cbn [geojson.Geometry]; rewrite ?E.
Qed.

Lemma walkGroups_dropPoints cc groups targetLevel maxLevel withProp :
  walkGroups (dropPoints cc) groups targetLevel maxLevel withProp
  = walkGroups cc groups targetLevel maxLevel withProp.
Proof.
  induction groups as [|g groups IH]; [done |].
  destruct g; cbn [walkGroups]; try done.
  change (FeatureForID (dropPoints cc) s) with (FeatureForID cc s).
  destruct (FeatureForID cc s) as [groupFeature|]; [| done].
  change (matchesLevel (dropPoints cc) groupFeature targetLevel maxLevel)
    with (matchesLevel cc groupFeature targetLevel maxLevel).
  by rewrite IH.
Qed.

(** C9. The loader keeps a point geometry, but a feature that has one is
    never the answer of SmallestFeature, and every coordinate query answers
    as if such features had no geometry. *)
Theorem SmallestFeature_skips_points :
  forall cc lat lng,
    (forall geomData x y rest,
       geomData !! "type" = Some (Str "Point") ->
       geomData !! "coordinates" = Some (Slice (Float64 x :: Float64 y :: rest)) ->
       parseGeometry (Map geomData) = Some (orb.GPoint (x, y)))
    /\ (forall f p,
       SmallestFeature cc lat lng = Some f -> geojson.Geometry f <> Some (orb.GPoint p))
    /\ SmallestFeature (dropPoints cc) lat lng = SmallestFeature cc lat lng
    /\ (forall opts, featureForLoc (dropPoints cc) lat lng opts = featureForLoc cc lat lng opts)
    /\ CodeByLocation (dropPoints cc) lat lng = CodeByLocation cc lat lng.
Proof.
  intros cc lat lng.
  assert (forall opts,
            featureForLoc (dropPoints cc) lat lng opts = featureForLoc cc lat lng opts) as Hloc.
  { intros opts. unfold featureForLoc, fastPath, generalPath, countryFeature.
    rewrite SmallestFeature_dropPoints.
    destruct (SmallestFeature cc lat lng) as [smallest|]; [| done].
    destruct (geojson.Properties smallest !! "groups") as [[]|];
      try rewrite walkGroups_dropPoints; reflexivity. }
  split_and!.
  - apply parseGeometry_point.
  - intros f p H. unfold SmallestFeature in H.
    apply smallestIn_point in H as (geom & E & Hp). rewrite E. intros [= ->].
    by eapply Hp.
  - apply SmallestFeature_dropPoints.
  - apply Hloc.
  - unfold CodeByLocation, ISO1A2Code. rewrite Hloc.
    unfold dropPoints at 1. cbn [features]. by rewrite oldMethod_dropPoint.
Qed.

(** ** The country code of a point *)

Lemma oldMethod_cons feature rest pt :
  oldMethod (feature :: rest) pt
  = if contains feature pt then getCodeFromFeature feature else oldMethod rest pt.
Proof.
  unfold contains. cbn [oldMethod].
  by destruct (geojson.Geometry feature) as [[| |]|].
Qed.

Lemma oldMethod_none fs pt :
  (forall f, f ∈ fs -> ~ covers f pt) -> oldMethod fs pt = "??".
Proof.
  induction fs as [|a fs IH]; intros H; [done |].
  rewrite oldMethod_cons.
  rewrite (proj2 (not_contains_covers a pt)) by (apply H; left).
  apply IH. intros f Hin. apply H. by right.
Qed.

Lemma featureForLoc_none cc lat lng opts :
  SmallestFeature cc lat lng = None -> featureForLoc cc lat lng opts = None.
Proof.
  intros H. unfold featureForLoc, fastPath, generalPath, countryFeature. rewrite H.
  by case_bool_decide.
Qed.

(** C1, as the code has it. Where no feature of the catalog covers the
    point, CodeByLocation answers the two question marks "??". *)
Theorem CodeByLocation_no_match :
  forall cc lat lng,
    (forall f, f ∈ features cc -> ~ covers f (lng, lat)) ->
    CodeByLocation cc lat lng = "??".
Proof.
  intros cc lat lng H. unfold CodeByLocation, ISO1A2Code.
  rewrite featureForLoc_none by (by apply smallestIn_None).
  cbn. by apply oldMethod_none.
Qed.

(** ** The country fast path *)

(** C10. When the smallest feature names a country, countryFeature is the
    index lookup of that name, and nil when the index has no such entry:
    neither the feature itself nor its ISO code is tried. *)
Theorem countryFeature_follows_country :
  forall cc lat lng f country,
    SmallestFeature cc lat lng = Some f ->
    stringProp f "country" = Some country ->
    country <> "" ->
    countryFeature cc lat lng = featuresByCode cc !! canonicalID country
    /\ (featuresByCode cc !! canonicalID country = None -> countryFeature cc lat lng = None).
Proof.
  intros cc lat lng f country Hs Hc Hne.
  assert (countryFeature cc lat lng = featuresByCode cc !! canonicalID country) as E.
  { unfold countryFeature. rewrite Hs. unfold stringProp in Hc.
    destruct (geojson.Properties f !! "country") as [[]|]; simplify_eq.
    by destruct country. }
  split; [done | by rewrite E].
Qed.

(** ** The level walk *)

Lemma levelIndexFrom_range i ls level :
  levelIndexFrom i ls level = (-1)%Z \/ (i <= levelIndexFrom i ls level)%Z.
Proof.
  revert i. induction ls as [|l ls IH]; intros i; simpl; [by left |].
  case_bool_decide; [right; lia |]. destruct (IH (i + 1)%Z); [by left | right; lia].
Qed.

Lemma levelIndex_range cc level :
  levelIndex cc level = (-1)%Z \/ (0 <= levelIndex cc level)%Z.
Proof. apply levelIndexFrom_range. Qed.

Lemma matchesLevel_range cc opts feature :
  levelIndex cc (targetLevelOf opts) <> (-1)%Z ->
  (levelIndex cc (targetLevelOf opts) <= levelIndex cc (maxLevelOf opts))%Z ->
  matchesLevel cc feature (targetLevelOf opts) (maxLevelOf opts) = true ->
  inRange cc opts feature.
Proof.
  intros Ht Hm. unfold matchesLevel, inRange, stringProp.
  destruct (levelIndex_range cc (targetLevelOf opts)) as [? | H0]; [done |].
  destruct (geojson.Properties feature !! "level") as [[| | |level| | |]|]; try done.
  case_bool_decide as E.
  - intros _. exists level. rewrite E. split; [done | lia].
  - intros [? ?]%andb_prop. exists level. split; [done | lia].
Qed.

Lemma walkGroups_matches cc groups targetLevel maxLevel withProp f :
  walkGroups cc groups targetLevel maxLevel withProp = Some f ->
  matchesLevel cc f targetLevel maxLevel = true.
Proof.
  induction groups as [|g groups IH]; [done |].
  destruct g; cbn [walkGroups]; try done.
  destruct (FeatureForID cc s) as [groupFeature|]; [| done].
  destruct (matchesLevel cc groupFeature targetLevel maxLevel) eqn:E; [| done].
  cbn [andb]. destruct (_ || _); [by intros [= <-] | done].
Qed.

Lemma generalPath_range cc lat lng opts f :
  generalPath cc lat lng opts = Some f -> inRange cc opts f.
Proof.
  unfold generalPath.
  destruct (SmallestFeature cc lat lng) as [smallest|]; [| done].
  destruct (_ || _) eqn:Hcheck; [done |].
  apply orb_false_elim in Hcheck as [[Ht Hm]%orb_false_elim Hlt].
  apply Z.eqb_neq in Ht. apply Z.ltb_ge in Hlt.
  destruct (matchesLevel cc smallest _ _) eqn:Hs.
  - cbn [andb]. destruct (_ || _).
    + intros [= <-]. by apply matchesLevel_range.
    + destruct (geojson.Properties smallest !! "groups") as [[]|]; try done.
      intros H%walkGroups_matches. by apply matchesLevel_range.
  - cbn [andb]. destruct (geojson.Properties smallest !! "groups") as [[]|]; try done.
    intros H%walkGroups_matches. by apply matchesLevel_range.
Qed.

(** The general path rejects a request whose levels are unknown or out of
    order, whatever the point. *)
Lemma generalPath_rejects cc lat lng opts :
  levelIndex cc (targetLevelOf opts) = (-1)%Z
  \/ levelIndex cc (maxLevelOf opts) = (-1)%Z
  \/ (levelIndex cc (maxLevelOf opts) < levelIndex cc (targetLevelOf opts))%Z ->
  generalPath cc lat lng opts = None.
Proof.
  intros H. unfold generalPath.
  destruct (SmallestFeature cc lat lng) as [smallest|]; [| done].
  assert (((levelIndex cc (targetLevelOf opts) =? -1)%Z
           || (levelIndex cc (maxLevelOf opts) =? -1)%Z
           || (levelIndex cc (maxLevelOf opts) <? levelIndex cc (targetLevelOf opts))%Z)
          = true) as ->; [| done].
  destruct H as [H | [H | H]].
  - apply Z.eqb_eq in H. by rewrite H.
  - apply Z.eqb_eq in H. rewrite H. by rewrite orb_true_r.
  - apply Z.ltb_lt in H. rewrite H. by rewrite orb_true_r.
Qed.

(** C3, as the code has it. A region featureForLoc returns lies between
    the target level and the max level of the request, unless it is the
    answer of the country fast path, which is returned whatever its level. *)
Theorem featureForLoc_level_range :
  forall cc lat lng opts f,
    featureForLoc cc lat lng opts = Some f ->
    (targetLevelOf opts = "country" /\ countryFeature cc lat lng = Some f)
    \/ inRange cc opts f.
Proof.
  intros cc lat lng opts f. unfold featureForLoc.
  destruct (fastPath cc lat lng opts) as [fast|] eqn:Hfast.
  - intros [= ->]. left. unfold fastPath in Hfast.
    case_bool_decide; [| done]. split; [done |].
    destruct (countryFeature cc lat lng) as [feature|]; [| done].
    destruct (_ || _); congruence.
  - intros H. right. by eapply generalPath_range.
Qed.

(** ** The display name of a code *)

Lemma NameEnByCode_unresolved cc code :
  FeatureForID cc code = None -> NameEnByCode cc code = ToUpper code.
Proof. unfold NameEnByCode. by intros ->. Qed.

Lemma NameEnByCode_resolved cc code feature name :
  FeatureForID cc code = Some feature ->
  stringProp feature "nameEn" = Some name ->
  NameEnByCode cc code = name.
Proof. unfold NameEnByCode. by intros -> ->. Qed.

(** C7. An unknown code comes back in upper case ("zz" gives "ZZ"), but a
    code that resolves to a region whose English name is empty gives the
    empty string, not the upper-cased code. *)
Theorem NameEnByCode_empty_name :
  NameEnByCode (NewCountryCoder scenario1) "zz" = "ZZ"
  /\ NameEnByCode (NewCountryCoder namelessRegion) "zz" = ""
  /\ ToUpper "zz" = "ZZ".
Proof. repeat split; reflexivity. Qed.

Lemma covers_none fs pt :
  forallb (fun f => negb (contains f pt)) fs = true -> forall f, f ∈ fs -> ~ covers f pt.
Proof.
  rewrite forallb_forall. intros H f Hin%list_elem_of_In.
  by apply not_contains_covers, negb_true_iff, H.
Qed.

(** * Further properties of the coder *)

(** ** The index of identifying strings *)

Lemma cacheID_lookup feature cc id k :
  featuresByCode (cacheID feature cc id) !! k
  = if negb (bool_decide (k = "")) && bool_decide (canonicalID id = k)
    then Some feature
    else featuresByCode cc !! k.
Proof.
  unfold cacheID. cbv zeta. case_bool_decide as Hid.
  - repeat case_bool_decide; simplify_eq; done.
  - cbn [featuresByCode]. rewrite lookup_insert.
    repeat case_bool_decide; case_decide; simplify_eq; done.
Qed.

Lemma cacheIDs_lookup feature ids cc k :
  featuresByCode (fold_left (cacheID feature) ids cc) !! k
  = if negb (bool_decide (k = ""))
       && existsb (fun id => bool_decide (canonicalID id = k)) ids
    then Some feature
    else featuresByCode cc !! k.
Proof.
  revert cc. induction ids as [|id ids IH]; intros cc.
  - by rewrite andb_false_r.
  - rewrite fold_left_step, IH, cacheID_lookup. cbn [existsb].
    destruct (negb (bool_decide (k = ""))); [| done]. cbn [andb].
    destruct (bool_decide (canonicalID id = k)); cbn [orb]; [| done].
    by destruct (existsb _ ids).
Qed.

Lemma cacheFeatureByIDs_lookup cc feature k :
  featuresByCode (cacheFeatureByIDs cc feature) !! k
  = if claimsKey k feature then Some feature else featuresByCode cc !! k.
Proof. unfold cacheFeatureByIDs, claimsKey. apply cacheIDs_lookup. Qed.

Lemma loadStep_lookup cc rf k :
  featuresByCode (loadStep cc rf) !! k
  = if claimsKey k (loadFeature rf) then Some (loadFeature rf)
    else featuresByCode cc !! k.
Proof.
  unfold loadStep. cbv zeta. generalize (loadFeature rf). intros feature.
  by rewrite cacheFeatureByIDs_lookup.
Qed.

Lemma load_lookup rfs cc k :
  featuresByCode (fold_left loadStep rfs cc) !! k
  = match last (filter (fun f => claimsKey k f = true) (loadFeature <$> rfs)) with
    | Some f => Some f
    | None => featuresByCode cc !! k
    end.
Proof.
  revert cc. induction rfs as [|rf rfs IH]; intros cc; [done |].
  rewrite fold_left_step, IH, loadStep_lookup, fmap_cons, filter_cons.
  generalize (loadFeature rf) (loadFeature <$> rfs). intros f fs.
  destruct (claimsKey k f) eqn:E.
  - rewrite decide_True by done. rewrite last_cons.
    by destruct (last (filter _ fs)).
  - by rewrite decide_False by done.
Qed.

Lemma NewCountryCoder_lookup collection k :
  featuresByCode (NewCountryCoder collection) !! k
  = last (filter (fun f => claimsKey k f = true)
            (loadFeature <$> region.Features collection)).
Proof.
  unfold NewCountryCoder. rewrite load_lookup. cbn [featuresByCode].
  rewrite lookup_empty. by destruct (last _).
Qed.

(** X1. After the load, an identifier resolves to the last feature of the
    dataset, in its order, that has an identifying string with the same
    canonical form; a later feature overwrites an earlier one, and nothing
    is found when no feature has such a string. *)
Theorem FeatureForID_last_write :
  forall collection id,
    FeatureForID (NewCountryCoder collection) id
    = last (filter (fun f => claimsKey (canonicalID id) f = true)
              (loadFeature <$> region.Features collection)).
Proof.
  intros collection id. unfold FeatureForID. cbv zeta.
  apply NewCountryCoder_lookup.
Qed.

Lemma claimsKey_empty feature : claimsKey "" feature = false.
Proof. reflexivity. Qed.

Lemma NewCountryCoder_lookup_empty collection : featuresByCode (NewCountryCoder collection) !! "" = None.
Proof.
  rewrite NewCountryCoder_lookup. apply last_None.
  induction (loadFeature <$> region.Features collection) as [|f fs IH]; [done |].
  rewrite filter_cons, claimsKey_empty. by rewrite decide_False by done.
Qed.

(** X2. An identifier whose canonical form is empty (the empty string,
    punctuation alone, a lone lower-case stop word such as "de") resolves
    to no feature of a loaded catalog, and NameEnByCode gives it back in
    upper case. *)
Theorem FeatureForID_empty_key :
  forall collection id,
    canonicalID id = "" ->
    FeatureForID (NewCountryCoder collection) id = None
    /\ NameEnByCode (NewCountryCoder collection) id = ToUpper id.
Proof.
  intros collection id Hid.
  assert (FeatureForID (NewCountryCoder collection) id = None) as E.
  { unfold FeatureForID. cbv zeta. rewrite Hid. apply NewCountryCoder_lookup_empty. }
  split; [done |]. unfold NameEnByCode. by rewrite E.
Qed.

(** ** The identifying strings of a loaded feature *)

Lemma ids_from (m : gmap string any) props acc :
  fold_left
    (fun ids prop =>
       match m !! prop with
       | Some (Str val) => if bool_decide (val = "") then ids else ids ++ [val]
       | _ => ids
       end)
    props acc
  = acc ++ nonEmpty (omap (fun prop => match m !! prop with
                                       | Some (Str val) => Some val
                                       | _ => None
                                       end) props).
Proof.
  unfold nonEmpty. revert acc. induction props as [|prop props IH]; intros acc.
  - by rewrite app_nil_r.
  - rewrite fold_left_step, IH. cbn [omap list_omap].
    destruct (m !! prop) as [[| | |val| | |]|]; try done.
    rewrite filter_cons. case_bool_decide.
    + by rewrite decide_False by (by intros H'; apply H').
    + rewrite decide_True by done. by rewrite <- app_assoc.
Qed.

(** The identifying properties of a typed record, in the order of
    [idProps]. *)
Lemma featureIDs_loadFeature rf :
  featureIDs (loadFeature rf)
  = nonEmpty
      (let p := region.Properties rf in
       [ region.ID p; region.ISO1A2 p; region.ISO1A3 p; region.ISO1N3 p;
         region.M49 p; region.Wikidata p; region.EmojiFlag p; region.CCTLD p;
         region.NameEn p ]).
Proof.
  unfold featureIDs. cbv zeta.
  assert (geojson.Properties (loadFeature rf) !! "aliases"
          = Some (StrSlice (region.Aliases (region.Properties rf)))) as -> by reflexivity.
  rewrite ids_from, app_nil_l. f_equal.
Qed.

(** X3. A loaded feature is indexed under the canonical forms of its
    non-empty id, iso1A2, iso1A3, iso1N3, m49, wikidata, emojiFlag, ccTLD
    and nameEn, and under nothing else: the aliases, which the loader stores
    as a []string, fail the assertion [.([]interface{})] and are never
    indexed. *)
Theorem claimsKey_loaded :
  forall rf k,
    claimsKey k (loadFeature rf) = true
    <-> k <> ""
        /\ exists s,
             s ∈ (let p := region.Properties rf in
                  [ region.ID p; region.ISO1A2 p; region.ISO1A3 p; region.ISO1N3 p;
                    region.M49 p; region.Wikidata p; region.EmojiFlag p;
                    region.CCTLD p; region.NameEn p ])
             /\ s <> "" /\ canonicalID s = k.
Proof.
  intros rf k. unfold claimsKey.
  rewrite andb_true_iff, negb_true_iff, bool_decide_eq_false, existsb_exists.
  rewrite featureIDs_loadFeature. unfold nonEmpty. cbv zeta.
  split.
  - intros [Hk (s & Hin%list_elem_of_In & Hs%bool_decide_eq_true)].
    apply list_elem_of_filter in Hin as [? ?]. eauto.
  - intros [Hk (s & Hin & Hne & Hs)]. split; [done |]. exists s. split.
    + apply list_elem_of_In, list_elem_of_filter. done.
    + by apply bool_decide_eq_true.
Qed.

(** ** The geometry of a loaded catalog *)

Lemma coordsToMultiPolygon_in_range coords mp :
  coordsToMultiPolygon coords = Some mp -> mp <> [] /\ Forall ringsInRange mp.
Proof.
  destruct coords as [| | | |blocks| |]; try done.
  unfold coordsToMultiPolygon. rewrite polygons_from, app_nil_l. cbv zeta.
  intros H. assert (mp = omap keptPolygon blocks) as ->
    by (destruct (omap keptPolygon blocks); simpl in H; congruence).
  split; [by destruct (omap keptPolygon blocks) |].
  apply Forall_forall. intros p (b & _ & Hb)%list_elem_of_omap.
  rewrite <- coordsToPolygon_kept in Hb. by apply coordsToPolygon_rings in Hb.
Qed.

Lemma parseGeometry_in_range raw :
  match parseGeometry raw with
  | Some (orb.GPolygon p) => ringsInRange p
  | Some (orb.GMultiPolygon mp) => mp <> [] /\ Forall ringsInRange mp
  | _ => True
  end.
Proof.
  unfold parseGeometry. destruct raw as [| | | | |geomData|]; try done.
  destruct (geomData !! "type") as [[| | |geomType| | |]|]; try done.
  destruct (geomData !! "coordinates") as [coords|]; [| done].
  repeat case_bool_decide; try done.
  - destruct (coordsToPolygon coords) as [p|] eqn:E; [| done]. simpl.
    by apply coordsToPolygon_rings in E.
  - destruct (coordsToMultiPolygon coords) as [mp|] eqn:E; [| done]. simpl.
    by apply coordsToMultiPolygon_in_range in E.
  - by destruct coords as [| | | |[|[] [|[] ?]]| |].
Qed.

(** X4. In a loaded catalog every polygon has a ring and every ring has a
    point, also inside a multipolygon, and no multipolygon is empty: the
    containment tests never index a ring or a point that is not there. *)
Theorem loaded_geometry_in_range :
  forall collection, Forall geometryInRange (features (NewCountryCoder collection)).
Proof.
  intros collection. destruct (NewCountryCoder_features collection) as [-> _].
  apply Forall_forall. intros f (rf & -> & _)%list_elem_of_fmap.
  unfold geometryInRange. cbn [loadFeature geojson.Geometry].
  apply parseGeometry_in_range.
Qed.

(** ** The containment test on a decoded geometry *)

(** X5. geometryContainsPoint on a decoded geometry object answers as the
    scan does on the feature the loader builds from the same object: true
    exactly when SmallestFeature finds that feature at the point. *)
Theorem geometryContainsPoint_as_loaded :
  forall type properties geomData pt,
    let feature :=
      loadFeature {| region.Type_ := type;
                     region.Properties := properties;
                     region.Geometry := Map geomData |} in
    smallestIn [feature] pt
    = if geometryContainsPoint geomData pt then Some feature else None.
Proof.
  intros type properties geomData pt feature.
  rewrite smallestIn_cons. cbn [smallestIn].
  assert (contains feature pt = geometryContainsPoint geomData pt) as ->; [| done].
  unfold contains, feature, geometryContainsPoint.
  cbn [loadFeature geojson.Geometry region.Geometry]. unfold parseGeometry.
  destruct (geomData !! "type") as [[| | |geomType| | |]|]; try done.
  destruct (geomData !! "coordinates") as [coords|]; [| done].
  repeat case_bool_decide; try done.
  - by destruct (coordsToPolygon coords).
  - by destruct (coordsToMultiPolygon coords).
  - by destruct coords as [| | | |[|[] [|[] ?]]| |].
Qed.

(** ** The required property *)

Lemma walkGroups_withProp cc groups targetLevel maxLevel withProp f :
  walkGroups cc groups targetLevel maxLevel withProp = Some f ->
  withProp = "" \/ hasProperty f withProp = true.
Proof.
  induction groups as [|g groups IH]; [done |].
  destruct g; cbn [walkGroups]; try done.
  destruct (FeatureForID cc s) as [groupFeature|]; [| done].
  destruct (matchesLevel cc groupFeature targetLevel maxLevel); [| done].
  cbn [andb]. case_bool_decide; [by left |]. cbn [orb].
  destruct (hasProperty groupFeature withProp) eqn:E; [| done].
  intros [= <-]. by right.
Qed.

Lemma fastPath_withProp cc lat lng opts f :
  fastPath cc lat lng opts = Some f ->
  WithProp opts = "" \/ hasProperty f (WithProp opts) = true.
Proof.
  unfold fastPath. case_bool_decide; [| done].
  destruct (countryFeature cc lat lng) as [feature|]; [| done].
  case_bool_decide; [by left |]. cbn [orb].
  destruct (hasProperty feature (WithProp opts)) eqn:E; [| done].
  intros [= <-]. by right.
Qed.

Lemma generalPath_withProp cc lat lng opts f :
  generalPath cc lat lng opts = Some f ->
  WithProp opts = "" \/ hasProperty f (WithProp opts) = true.
Proof.
  unfold generalPath.
  destruct (SmallestFeature cc lat lng) as [smallest|]; [| done].
  destruct (_ || _); [done |].
  destruct (matchesLevel cc smallest _ _); cbn [andb].
  - case_bool_decide; [by left |]. cbn [orb].
    destruct (hasProperty smallest (WithProp opts)) eqn:E.
    + intros [= <-]. by right.
    + destruct (geojson.Properties smallest !! "groups") as [[]|]; try done.
      apply walkGroups_withProp.
  - destruct (geojson.Properties smallest !! "groups") as [[]|]; try done.
    apply walkGroups_withProp.
Qed.

Lemma featureForLoc_cases cc lat lng opts f :
  featureForLoc cc lat lng opts = Some f ->
  fastPath cc lat lng opts = Some f \/ generalPath cc lat lng opts = Some f.
Proof.
  unfold featureForLoc. destruct (fastPath cc lat lng opts); [by left | by right].
Qed.

(** X6. A feature featureForLoc returns carries the required property
    whenever one is asked for: the filter holds on the fast path, on the
    smallest feature and on every group of the walk. *)
Theorem featureForLoc_withProp :
  forall cc lat lng opts f,
    featureForLoc cc lat lng opts = Some f ->
    WithProp opts = "" \/ hasProperty f (WithProp opts) = true.
Proof.
  intros cc lat lng opts f [H | H]%featureForLoc_cases.
  - by eapply fastPath_withProp.
  - by eapply generalPath_withProp.
Qed.

Lemma hasProperty_string f prop :
  hasProperty f prop = true ->
  forall s, stringProp f prop = Some s -> s <> "".
Proof.
  unfold hasProperty, stringProp.
  destruct (geojson.Properties f !! prop) as [[| | |str| | |]|]; try done.
  intros H s [= <-]. by case_bool_decide.
Qed.

(** ** Where an answer comes from *)

Lemma SmallestFeature_elem cc lat lng f :
  SmallestFeature cc lat lng = Some f -> f ∈ features cc.
Proof.
  unfold SmallestFeature. intros (before & after & -> & _)%smallestIn_Some.
  apply elem_of_app. right. left.
Qed.

Lemma walkGroups_indexed cc groups targetLevel maxLevel withProp f :
  walkGroups cc groups targetLevel maxLevel withProp = Some f ->
  exists id, FeatureForID cc id = Some f.
Proof.
  induction groups as [|g groups IH]; [done |].
  destruct g; cbn [walkGroups]; try done.
  destruct (FeatureForID cc s) as [groupFeature|] eqn:E; [| done].
  destruct (_ && _); [| done]. intros [= <-]. eauto.
Qed.

Lemma countryFeature_origin cc lat lng f :
  countryFeature cc lat lng = Some f ->
  SmallestFeature cc lat lng = Some f \/ exists id, FeatureForID cc id = Some f.
Proof.
  unfold countryFeature.
  destruct (SmallestFeature cc lat lng) as [smallest|]; [| done].
  destruct (geojson.Properties smallest !! "country") as [[| | |[|c country]| | |]|];
    try (intros H; right; eauto; fail);
    destruct (geojson.Properties smallest !! "iso1A2") as [[| | |[|c' iso1A2]| | |]|];
    try (intros H; right; eauto; fail); intros [= <-]; by left.
Qed.

Lemma featureForLoc_origin cc lat lng opts f :
  featureForLoc cc lat lng opts = Some f ->
  SmallestFeature cc lat lng = Some f \/ exists id, FeatureForID cc id = Some f.
Proof.
  intros [H | H]%featureForLoc_cases.
  - unfold fastPath in H. case_bool_decide; [| done].
    destruct (countryFeature cc lat lng) as [feature|] eqn:E; [| done].
    destruct (_ || _); [| done]. simplify_eq. by apply countryFeature_origin.
  - unfold generalPath in H.
    destruct (SmallestFeature cc lat lng) as [smallest|]; [| done].
    destruct (_ || _); [done |].
    destruct (_ && _); [left; congruence |].
    destruct (geojson.Properties smallest !! "groups") as [[]|]; try done.
    right. by eapply walkGroups_indexed.
Qed.

Lemma FeatureForID_loaded collection id f :
  FeatureForID (NewCountryCoder collection) id = Some f ->
  f ∈ features (NewCountryCoder collection).
Proof.
  unfold FeatureForID. cbv zeta. rewrite NewCountryCoder_lookup.
  destruct (NewCountryCoder_features collection) as [-> _].
  intros H%last_Some_elem_of. by apply list_elem_of_filter in H as [_ ?].
Qed.

(** X8. Whatever Feature returns on a loaded catalog, for an identifier or
    for coordinates, at any level, is one of the features of the catalog
    list, built by the loader from a feature of the dataset. *)
Theorem Feature_of_catalog :
  forall collection query opts f,
    Feature (NewCountryCoder collection) query opts = Some f ->
    f ∈ features (NewCountryCoder collection)
    /\ exists rf, rf ∈ region.Features collection /\ f = loadFeature rf.
Proof.
  intros collection query opts f H.
  assert (f ∈ features (NewCountryCoder collection)) as Hin.
  { unfold Feature in H. cbv zeta in H.
    destruct query as [v|[|v0 [|v1 v]]|v0 v1|]; try done.
    - by eapply FeatureForID_loaded.
    - apply featureForLoc_origin in H as [H | [id H]];
        [by eapply SmallestFeature_elem | by eapply FeatureForID_loaded].
    - apply featureForLoc_origin in H as [H | [id H]];
        [by eapply SmallestFeature_elem | by eapply FeatureForID_loaded]. }
  split; [done |]. destruct (NewCountryCoder_features collection) as [E _].
  rewrite E in Hin. apply list_elem_of_fmap in Hin as (rf & -> & ?). eauto.
Qed.

Lemma featureForLoc_loaded collection lat lng opts f :
  featureForLoc (NewCountryCoder collection) lat lng opts = Some f ->
  exists rf, f = loadFeature rf.
Proof.
  intros H. assert (f ∈ features (NewCountryCoder collection)) as Hin.
  { apply featureForLoc_origin in H as [H | [id H]];
      [by eapply SmallestFeature_elem | by eapply FeatureForID_loaded]. }
  destruct (NewCountryCoder_features collection) as [E _].
  rewrite E in Hin. apply list_elem_of_fmap in Hin as (rf & -> & ?). eauto.
Qed.

(** ** The ISO code of a point *)

Lemma loadFeature_iso1A2 rf :
  stringProp (loadFeature rf) "iso1A2" = Some (region.ISO1A2 (region.Properties rf)).
Proof. reflexivity. Qed.

(** X7. On a loaded catalog ISO1A2Code is the iso1A2 property of the feature
    featureForLoc finds with that property required, and it is empty exactly
    when featureForLoc finds none. *)
Theorem ISO1A2Code_empty_iff :
  forall collection lat lng,
    let cc := NewCountryCoder collection in
    let opts := {| Level := ""; MaxLevel := ""; WithProp := "iso1A2" |} in
    (ISO1A2Code cc lat lng = "" <-> featureForLoc cc lat lng opts = None)
    /\ (forall f, featureForLoc cc lat lng opts = Some f ->
          stringProp f "iso1A2" = Some (ISO1A2Code cc lat lng)
          /\ ISO1A2Code cc lat lng <> "").
Proof.
  intros collection lat lng cc opts.
  assert (forall f, featureForLoc cc lat lng opts = Some f ->
            stringProp f "iso1A2" = Some (ISO1A2Code cc lat lng)
            /\ ISO1A2Code cc lat lng <> "") as Hsome.
  { intros f Hf. unfold ISO1A2Code. cbv zeta. fold opts. rewrite Hf.
    destruct (featureForLoc_loaded _ _ _ _ _ Hf) as [rf ->].
    assert (hasProperty (loadFeature rf) "iso1A2" = true) as Hp.
    { destruct (featureForLoc_cases _ _ _ _ _ Hf) as [H | H].
      - by apply fastPath_withProp in H as [? | ?].
      - by apply generalPath_withProp in H as [? | ?]. }
    rewrite loadFeature_iso1A2. split; [done |].
    by eapply hasProperty_string; [| apply loadFeature_iso1A2]. }
  split; [| done]. split.
  - intros H. destruct (featureForLoc cc lat lng opts) as [f|] eqn:Hf; [| done].
    by destruct (Hsome f eq_refl).
  - intros H. unfold ISO1A2Code. cbv zeta. fold opts. by rewrite H.
Qed.

(** ** The fallback of CodeByLocation *)

Lemma oldMethod_smallest fs pt :
  oldMethod fs pt
  = match smallestIn fs pt with
    | Some f => getCodeFromFeature f
    | None => "??"
    end.
Proof.
  induction fs as [|a fs IH]; [done |].
  rewrite oldMethod_cons, smallestIn_cons. by destruct (contains a pt).
Qed.

(** X9. CodeByLocation is the lower-cased ISO1A2Code when that is not empty;
    otherwise its fallback loop reads the code off the very feature
    SmallestFeature returns (its country, else its English name, else its
    iso1A2, in lower case), and gives "??" when there is none. *)
Theorem CodeByLocation_cases :
  forall cc lat lng,
    CodeByLocation cc lat lng
    = if bool_decide (ISO1A2Code cc lat lng = "") then
        match SmallestFeature cc lat lng with
        | Some f => getCodeFromFeature f
        | None => "??"
        end
      else ToLower (ISO1A2Code cc lat lng).
Proof.
  intros cc lat lng. unfold CodeByLocation. cbv zeta.
  case_bool_decide; cbn [negb]; [| done].
  unfold SmallestFeature. cbv zeta. apply oldMethod_smallest.
Qed.

Lemma mapBytes_nonempty f s : s <> "" -> mapBytes f s <> "".
Proof. by destruct s. Qed.

Lemma ToLower_nonempty s :
  (forall t, t <> "" -> mapLower t <> "") -> s <> "" -> ToLower s <> "".
Proof.
  intros H Hs. unfold ToLower. destruct (allBytes isASCIIByte s); auto using mapBytes_nonempty.
Qed.

Lemma getCodeFromFeature_nonempty f :
  (forall t, t <> "" -> mapLower t <> "") -> getCodeFromFeature f <> "".
Proof.
  intros H. unfold getCodeFromFeature.
  destruct (stringProp f "country") as [[|c country]|];
    try (by apply ToLower_nonempty);
    destruct (stringProp f "nameEn") as [[|c' nameEn]|];
    try (by apply ToLower_nonempty);
    destruct (stringProp f "iso1A2") as [[|c'' iso1A2]|];
    try (by apply ToLower_nonempty); done.
Qed.

(** X10. CodeByLocation never returns the empty string, as long as lower
    casing leaves no non-empty string empty: a point without country gets
    "??", never "". *)
Theorem CodeByLocation_nonempty :
  (forall t, t <> "" -> mapLower t <> "") ->
  forall cc lat lng, exists c rest, CodeByLocation cc lat lng = String c rest.
Proof.
  intros H cc lat lng.
  assert (CodeByLocation cc lat lng <> "") as Hne.
  { unfold CodeByLocation. cbv zeta. case_bool_decide; cbn [negb].
    - rewrite oldMethod_smallest.
      destruct (smallestIn _ _); [by apply getCodeFromFeature_nonempty | done].
    - by apply ToLower_nonempty. }
  destruct (CodeByLocation cc lat lng) as [|c rest]; [done | eauto].
Qed.

(** ** A point that no feature holds *)

(** X11. When SmallestFeature finds nothing at a point, every query on the
    coordinates is a plain miss: countryFeature and featureForLoc are nil at
    every level, with any filter, Feature is nil, and ISO1A2Code and NameEn
    are empty. *)
Theorem SmallestFeature_miss :
  forall cc lat lng,
    SmallestFeature cc lat lng = None ->
    countryFeature cc lat lng = None
    /\ (forall opts, featureForLoc cc lat lng opts = None)
    /\ (forall opts, Feature cc (QueryArray lng lat) opts = None)
    /\ (forall opts rest, Feature cc (QuerySlice (lng :: lat :: rest)) opts = None)
    /\ ISO1A2Code cc lat lng = ""
    /\ NameEn cc lat lng = "".
Proof.
  intros cc lat lng H.
  assert (forall opts, featureForLoc cc lat lng opts = None) as Hloc.
  { intros opts. unfold featureForLoc, fastPath, generalPath, countryFeature.
    rewrite H. by case_bool_decide. }
  split_and!.
  - unfold countryFeature. by rewrite H.
  - done.
  - intros opts. unfold Feature. cbv zeta. apply Hloc.
  - intros opts rest. unfold Feature. cbv zeta. apply Hloc.
  - unfold ISO1A2Code. cbv zeta. by rewrite Hloc.
  - unfold NameEn. by rewrite Hloc.
Qed.

(** ** The walk on a loaded catalog *)



(** ** The rank of a level *)

Lemma levelIndexFrom_spec start ls level :
  (0 <= start)%Z ->
  ((level ∉ ls) /\ levelIndexFrom start ls level = (-1)%Z)
  \/ exists i : nat,
       levelIndexFrom start ls level = (start + Z.of_nat i)%Z
       /\ ls !! i = Some level
       /\ forall j l, (j < i)%nat -> ls !! j = Some l -> l <> level.
Proof.
  revert start. induction ls as [|l ls IH]; intros start Hstart.
  - left. split; [apply not_elem_of_nil | done].
  - cbn [levelIndexFrom]. case_bool_decide as E.
    + right. exists 0%nat. split_and!; [lia | by subst | lia].
    + destruct (IH (start + 1)%Z) as [[Hnot ->] | (i & -> & Hi & Hbefore)]; [lia | |].
      * left. split; [| done]. by intros [-> | ?]%elem_of_cons.
      * right. exists (S i). split_and!; [lia | done |].
        intros [|j] l' Hj Hl; simplify_eq/=; [done |].
        eapply Hbefore; [| done]. lia.
Qed.

(** X13. levelIndex answers -1 exactly for a level that is not in the list
    of the coder; for a level of the list it answers the position of its
    first occurrence, counted from 0, which lies below the length of the
    list. *)
Theorem levelIndex_first_position :
  forall cc level,
    (levelIndex cc level = (-1)%Z <-> level ∉ levels cc)
    /\ (level ∈ levels cc ->
        exists i : nat,
          levelIndex cc level = Z.of_nat i
          /\ levels cc !! i = Some level
          /\ (i < length (levels cc))%nat
          /\ forall j l, (j < i)%nat -> levels cc !! j = Some l -> l <> level).
Proof.
  intros cc level. unfold levelIndex.
  destruct (levelIndexFrom_spec 0 (levels cc) level) as [[Hnot E] | (i & E & Hi & Hb)];
    [lia | |].
  - split; [by rewrite E |]. done.
  - rewrite E. split.
    + split; [lia |]. intros Hnot. destruct Hnot. by eapply list_elem_of_lookup_2.
    + intros _. exists i. split_and!; [lia | done | by eapply lookup_lt_Some | done].
Qed.

(** ** Identifiers in upper case *)

Lemma idFilterRegex_not_lower before c rest :
  isLower c = false ->
  idFilterRegex before (String c rest) = if inFilterClass c then 1%nat else 0%nat.
Proof.
  intros Hc. unfold idFilterRegex, stopWords. cbn [matchWords].
  by rewrite !matchWord_lower by done.
Qed.

Lemma replaceAllFrom_not_lower before s :
  allBytes (fun c => negb (isLower c)) s = true ->
  replaceAllFrom before 0 s = filterBytes (fun c => negb (inFilterClass c)) s.
Proof.
  revert before. induction s as [|c s IH]; intros before H; [done |].
  cbn [allBytes] in H. apply andb_prop in H as [Hc Hs]. apply negb_true_iff in Hc.
  cbn [replaceAllFrom filterBytes]. rewrite (idFilterRegex_not_lower _ _ _ Hc).
  destruct (inFilterClass c); cbn [negb]; by rewrite IH.
Qed.

Lemma mapBytes_upper_fixed s :
  allBytes (fun c => negb (isLower c)) s = true -> mapBytes upperByte s = s.
Proof.
  induction s as [|c s IH]; [done |]. cbn [allBytes mapBytes].
  intros [Hc Hs]%andb_prop. rewrite IH by done. unfold upperByte.
  apply negb_true_iff in Hc. by rewrite Hc.
Qed.

Lemma allBytes_filterBytes p q s :
  allBytes p s = true -> allBytes p (filterBytes q s) = true.
Proof.
  induction s as [|c s IH]; [done |]. cbn [allBytes filterBytes].
  intros [Hc Hs]%andb_prop. destruct (q c); cbn [allBytes]; rewrite ?Hc; auto.
Qed.

(** X14. An ASCII identifier without lower-case letter (an ISO code, an M49
    number, a name in capitals) loses only the bytes of the bracket class:
    no word is taken out of it, whatever it spells, and with a leading dot
    it is returned as it is. *)
Theorem canonicalID_upper_case :
  forall s,
    allBytes isASCIIByte s = true ->
    allBytes (fun c => negb (isLower c)) s = true ->
    canonicalID s
    = if HasPrefix s "." then s else filterBytes (fun c => negb (inFilterClass c)) s.
Proof.
  intros s Ha Hl. unfold canonicalID. case_bool_decide as Hs; [by subst s |].
  destruct (HasPrefix s ".").
  - rewrite ToUpper_ascii by done. by apply mapBytes_upper_fixed.
  - unfold ReplaceAllString. rewrite replaceAllFrom_not_lower by done.
    rewrite ToUpper_ascii by (by apply allBytes_filterBytes).
    by apply mapBytes_upper_fixed, allBytes_filterBytes.
Qed.

(** ** The entry point Feature *)


(** ** The fast path and the general path *)

Lemma loadFeature_level rf :
  stringProp (loadFeature rf) "level" = Some (region.Level (region.Properties rf)).
Proof. reflexivity. Qed.

(** X16. On a loaded catalog, for a request at the level "country" without
    max level, the fast path and the general path agree wherever the
    smallest containing feature is a country that countryFeature resolves to
    itself: both return it when it passes the filter, and both return nil
    when it does not. *)
Theorem fastPath_generalPath_agree :
  forall collection lat lng opts f,
    let cc := NewCountryCoder collection in
    targetLevelOf opts = "country" ->
    MaxLevel opts = "" ->
    SmallestFeature cc lat lng = Some f ->
    countryFeature cc lat lng = Some f ->
    stringProp f "level" = Some "country" ->
    generalPath cc lat lng opts = fastPath cc lat lng opts.
Proof.
  intros collection lat lng opts f cc Ht Hm Hs Hc Hl. subst cc.
  unfold generalPath, fastPath. cbv zeta. rewrite Hs, Hc, Ht.
  unfold maxLevelOf. rewrite Hm. cbn [bool_decide decide_rel].
  rewrite bool_decide_eq_true_2 by done.
  unfold levelIndex. destruct (NewCountryCoder_features collection) as [_ ->].
  assert (matchesLevel (NewCountryCoder collection) f "country" "world" = true) as ->.
  { unfold matchesLevel, stringProp in *.
    destruct (geojson.Properties f !! "level") as [[| | |level| | |]|]; simplify_eq.
    by rewrite bool_decide_eq_true_2. }
  change (levelIndexFrom 0 defaultLevels "country") with 3%Z.
  change (levelIndexFrom 0 defaultLevels "world") with 11%Z.
  cbn [Z.eqb Z.ltb Z.compare Pos.compare Pos.compare_cont orb andb].
  destruct (_ || _); [done |].
  apply SmallestFeature_elem in Hs.
  destruct (NewCountryCoder_features collection) as [E _]. rewrite E in Hs.
  apply list_elem_of_fmap in Hs as (rf & -> & _).
  by rewrite loadFeature_groups.
Qed.

(** ** When countryFeature is nil *)

Lemma loadFeature_country rf :
  geojson.Properties (loadFeature rf) !! "country"
  = Some (Str (region.Country (region.Properties rf))).
Proof. reflexivity. Qed.

Lemma loadFeature_iso1A2_prop rf :
  geojson.Properties (loadFeature rf) !! "iso1A2"
  = Some (Str (region.ISO1A2 (region.Properties rf))).
Proof. reflexivity. Qed.

Lemma claimsKey_iso1A2 rf :
  canonicalID (region.ISO1A2 (region.Properties rf)) <> "" ->
  claimsKey (canonicalID (region.ISO1A2 (region.Properties rf))) (loadFeature rf) = true.
Proof.
  intros Hk. unfold claimsKey. rewrite bool_decide_eq_false_2 by done. cbn [negb andb].
  apply existsb_exists. exists (region.ISO1A2 (region.Properties rf)).
  split; [| by apply bool_decide_eq_true].
  rewrite featureIDs_loadFeature. unfold nonEmpty. cbv zeta.
  apply list_elem_of_In, list_elem_of_filter. split.
  - intros E. rewrite E in Hk. by apply Hk.
  - right. left.
Qed.

Lemma FeatureForID_claimed collection rf id :
  rf ∈ region.Features collection ->
  claimsKey (canonicalID id) (loadFeature rf) = true ->
  is_Some (FeatureForID (NewCountryCoder collection) id).
Proof.
  intros Hin Hk. unfold FeatureForID. cbv zeta. rewrite NewCountryCoder_lookup.
  apply last_is_Some. intros E.
  assert (loadFeature rf ∈ filter (fun f => claimsKey (canonicalID id) f = true)
            (loadFeature <$> region.Features collection)) as Hf.
  { apply list_elem_of_filter. split; [done |]. by apply list_elem_of_fmap_2. }
  rewrite E in Hf. by apply not_elem_of_nil in Hf.
Qed.

(** X17. On a loaded catalog countryFeature is nil in three cases only:
    nothing contains the point; the smallest feature names a country that
    the index does not hold; or it names none and its iso1A2 has an empty
    canonical form. A feature with a usable iso1A2 of its own always
    resolves, since it is indexed under that code itself. *)
Theorem countryFeature_nil_loaded :
  forall collection lat lng,
    let cc := NewCountryCoder collection in
    countryFeature cc lat lng = None ->
    SmallestFeature cc lat lng = None
    \/ exists f,
         SmallestFeature cc lat lng = Some f
         /\ ((exists country,
                stringProp f "country" = Some country /\ country <> ""
                /\ FeatureForID cc country = None)
             \/ (exists iso,
                   stringProp f "country" = Some "" /\ stringProp f "iso1A2" = Some iso
                   /\ iso <> "" /\ canonicalID iso = "")).
Proof.
  intros collection lat lng cc. subst cc. unfold countryFeature.
  destruct (SmallestFeature (NewCountryCoder collection) lat lng) as [smallest|] eqn:Hs;
    [| by left].
  intros H. right. exists smallest. split; [done |].
  apply SmallestFeature_elem in Hs.
  destruct (NewCountryCoder_features collection) as [E _]. rewrite E in Hs.
  apply list_elem_of_fmap in Hs as (rf & -> & Hin).
  unfold stringProp. rewrite loadFeature_country, loadFeature_iso1A2_prop in *.
  destruct (region.Country (region.Properties rf)) as [|c country] eqn:Ec.
  - destruct (region.ISO1A2 (region.Properties rf)) as [|c iso] eqn:Ei; [done |].
    right. exists (String c iso). split_and!; [done.. |].
    destruct (decide (canonicalID (String c iso) = "")) as [| Hk]; [done |].
    rewrite <- Ei in Hk, H.
    destruct (FeatureForID_claimed collection rf _ Hin (claimsKey_iso1A2 rf Hk)) as [g Hg].
    congruence.
  - left. exists (String c country). by split_and!.
Qed.

(** ** The shape of a canonical identifier *)

(** X18. A canonical identifier holds no lower-case ASCII letter, and none
    of the bytes of the bracket class unless the input starts with a dot
    (given the properties of the Unicode mapping). *)
Theorem canonicalID_shape :
  UpperMapping ToUpper mapUpper ->
  forall s,
    allBytes (fun c => negb (isLower c)) (canonicalID s) = true
    /\ (HasPrefix s "." = false ->
        allBytes (fun c => negb (inFilterClass c)) (canonicalID s) = true).
Proof.
  intros H s. split.
  - unfold canonicalID. case_bool_decide; [done |].
    destruct (HasPrefix s "."); by apply ToUpper_no_lower.
  - intros Hdot. unfold canonicalID. case_bool_decide; [done |]. rewrite Hdot.
    apply ToUpper_no_class; [done |]. apply replaceAllFrom_no_class.
Qed.

(** ** Coordinates of a well-formed geometry *)

Lemma ringPoints_coordinates ring :
  keptPoints (ringCoordinates ring) = ring.
Proof.
  unfold ringCoordinates, keptPoints.
  induction ring as [|[x y] ring IH]; [done |].
  rewrite fmap_cons, filter_cons. cbn [validEntry lookup list_lookup isNumber andb].
  rewrite decide_True by done. rewrite fmap_cons, IH. done.
Qed.

Lemma keptRings_coordinates p :
  Forall (fun ring : orb.Ring => ring <> []) p ->
  keptRings (ringCoordinates <$> p) = p.
Proof.
  unfold keptRings. induction 1 as [|ring p Hring Hp IH]; [done |].
  rewrite !fmap_cons, filter_cons, ringPoints_coordinates.
  rewrite decide_True by done. by rewrite IH.
Qed.

Lemma coordsToPolygon_coordinates p :
  ringsInRange p -> coordsToPolygon (polygonCoordinates p) = Some p.
Proof.
  intros [Hne Hrings]. rewrite coordsToPolygon_kept. unfold polygonCoordinates.
  cbn [keptPolygon]. rewrite keptRings_coordinates by done. by destruct p.
Qed.

(** X19. Parsing undoes the GeoJSON writing of a well-formed geometry: the
    coordinates of a polygon whose rings all have a point parse to that
    polygon, and those of a multipolygon of such polygons to that
    multipolygon, with every point and ring in place. *)
Theorem coordsToPolygon_round_trip :
  (forall p, ringsInRange p -> coordsToPolygon (polygonCoordinates p) = Some p)
  /\ (forall mp,
        mp <> [] -> Forall ringsInRange mp ->
        coordsToMultiPolygon (multiPolygonCoordinates mp) = Some mp).
Proof.
  split; [apply coordsToPolygon_coordinates |].
  intros mp Hne Hmp. unfold multiPolygonCoordinates, coordsToMultiPolygon.
  rewrite polygons_from, app_nil_l. cbv zeta.
  assert (omap keptPolygon (polygonCoordinates <$> mp) = mp) as ->.
  { clear Hne. induction Hmp as [|p mp Hp Hmp IH]; [done |].
    rewrite fmap_cons. cbn [omap list_omap].
    rewrite <- coordsToPolygon_kept, coordsToPolygon_coordinates by done.
    by rewrite IH. }
  by destruct mp.
Qed.

(** ** The properties a loaded feature has *)

Lemma propertyBag_lookup p prop :
  propertyBag p !! prop
  = if bool_decide (prop ∈ ["aliases"; "groups"; "members"; "callingCodes"])
    then StrSlice <$> (if bool_decide (prop = "aliases") then Some (region.Aliases p)
                       else if bool_decide (prop = "groups") then Some (region.Groups p)
                       else if bool_decide (prop = "members") then Some (region.Members p)
                       else Some (region.CallingCodes p))
    else Str <$> match propertyBag p !! prop with
                 | Some (Str s) => Some s
                 | _ => None
                 end.
Proof.
  case_bool_decide as Hin.
  - repeat (apply elem_of_cons in Hin as [-> | Hin]; [reflexivity |]).
    by apply not_elem_of_nil in Hin.
  - destruct (propertyBag p !! prop) as [v|] eqn:E; [| done].
    apply elem_of_list_to_map in E; [| by apply (bool_decide_unpack _); vm_compute].
    repeat (apply elem_of_cons in E as [[= -> ->] | E];
            [first [ done | destruct Hin; set_solver ] |]).
    by apply not_elem_of_nil in E.
Qed.

(** X20. On a loaded feature the required-property test holds for each of
    the four list properties (aliases, groups, members, callingCodes)
    whatever the list holds, also when it is empty or missing from the
    dataset; for any other name it holds exactly when the feature has a
    non-empty string under it, so never for a name the loader does not
    know. *)
Theorem hasProperty_loaded :
  forall rf prop,
    hasProperty (loadFeature rf) prop = true
    <-> prop ∈ ["aliases"; "groups"; "members"; "callingCodes"]
        \/ exists s, stringProp (loadFeature rf) prop = Some s /\ s <> "".
Proof.
  intros rf prop. unfold hasProperty, stringProp. cbn [loadFeature geojson.Properties].
  rewrite propertyBag_lookup. case_bool_decide as Hin.
  - split; [by left |]. intros _. by repeat case_bool_decide.
  - destruct (match propertyBag (region.Properties rf) !! prop with
              | Some (Str s) => Some s
              | _ => None
              end) as [s|]; cbn [fmap option_fmap option_map].
    + rewrite negb_true_iff, bool_decide_eq_false. split.
      * intros Hs. right. eauto.
      * by intros [? | (s' & [= <-] & ?)].
    + split; [done |]. by intros [? | (s' & ? & ?)].
Qed.

(** ** Letter case *)

Lemma replaceAllFrom_stopWordFree before s :
  stopWordFree before s = true ->
  replaceAllFrom before 0 s = filterBytes (fun c => negb (inFilterClass c)) s.
Proof.
  revert before. induction s as [|c s IH]; intros before H; [done |].
  cbn [stopWordFree] in H. cbn [replaceAllFrom filterBytes]. unfold idFilterRegex.
  destruct (matchWords before (String c s) stopWords); [done |].
  destruct (inFilterClass c); cbn [negb]; by rewrite IH.
Qed.

Lemma filterBytes_upper s :
  mapBytes upperByte (filterBytes (fun c => negb (inFilterClass c)) s)
  = filterBytes (fun c => negb (inFilterClass c)) (mapBytes upperByte s).
Proof.
  induction s as [|c s IH]; [done |]. cbn [mapBytes filterBytes].
  rewrite upperByte_class. destruct (inFilterClass c); cbn [negb mapBytes]; by rewrite IH.
Qed.

Lemma mapBytes_upper_no_lower s :
  allBytes (fun c => negb (isLower c)) (mapBytes upperByte s) = true.
Proof.
  rewrite allBytes_mapBytes. apply allBytes_true. intros c. by rewrite upperByte_not_lower.
Qed.

Lemma HasPrefix_dot_upper s : HasPrefix (mapBytes upperByte s) "." = HasPrefix s ".".
Proof.
  destruct s as [|c s]; [done |]. cbn [mapBytes HasPrefix]. f_equal.
  apply bool_decide_ext. split.
  - intros E. destruct c as [[] [] [] [] [] [] [] []]; vm_compute in E; congruence.
  - by intros <-.
Qed.

(** X21. Letter case makes no difference to the canonical form of an ASCII
    identifier in which no stop word matches, or which starts with a dot:
    the identifier and its upper-case form get the same key, so FeatureForID
    finds the same feature for both. *)
Theorem canonicalID_case_insensitive :
  forall s,
    allBytes isASCIIByte s = true ->
    HasPrefix s "." = true \/ stopWordFree None s = true ->
    canonicalID (ToUpper s) = canonicalID s
    /\ forall cc, FeatureForID cc (ToUpper s) = FeatureForID cc s.
Proof.
  intros s Ha H.
  assert (canonicalID (ToUpper s) = canonicalID s) as E.
  { rewrite (ToUpper_ascii s Ha).
    assert (canonicalID (mapBytes upperByte s)
            = if HasPrefix s "." then mapBytes upperByte s
              else filterBytes (fun c => negb (inFilterClass c)) (mapBytes upperByte s)) as ->.
    { unfold canonicalID. case_bool_decide as Hs.
      - destruct s; [done | discriminate].
      - rewrite HasPrefix_dot_upper. destruct (HasPrefix s ".").
        + rewrite ToUpper_ascii by (by rewrite mapBytes_upper_ascii).
          apply mapBytes_upper_idem.
        + unfold ReplaceAllString.
          rewrite replaceAllFrom_not_lower by apply mapBytes_upper_no_lower.
          rewrite ToUpper_ascii
            by (by apply allBytes_filterBytes; rewrite mapBytes_upper_ascii).
          apply mapBytes_upper_fixed, allBytes_filterBytes, mapBytes_upper_no_lower. }
    unfold canonicalID. case_bool_decide as Hs; [by subst s |].
    destruct (HasPrefix s ".") eqn:Hdot; [by rewrite ToUpper_ascii |].
    destruct H as [? | H]; [done |].
    unfold ReplaceAllString. rewrite replaceAllFrom_stopWordFree by done.
    rewrite ToUpper_ascii by (by apply allBytes_filterBytes).
    by rewrite filterBytes_upper. }
  split; [done |]. intros cc. unfold FeatureForID. cbv zeta. by rewrite E.
Qed.

(** ** Every identifying string resolves *)

Lemma claimsKey_field rf s :
  s ∈ (let p := region.Properties rf in
       [ region.ID p; region.ISO1A2 p; region.ISO1A3 p; region.ISO1N3 p;
         region.M49 p; region.Wikidata p; region.EmojiFlag p; region.CCTLD p;
         region.NameEn p ]) ->
  s <> "" -> canonicalID s <> "" ->
  claimsKey (canonicalID s) (loadFeature rf) = true.
Proof.
  intros Hin Hs Hk. unfold claimsKey. rewrite bool_decide_eq_false_2 by done.
  cbn [negb andb]. apply existsb_exists. exists s.
  split; [| by apply bool_decide_eq_true].
  rewrite featureIDs_loadFeature. unfold nonEmpty.
  by apply list_elem_of_In, list_elem_of_filter.
Qed.

(** X22. After the load every non-empty identifying string of a feature of
    the dataset whose canonical form is not empty resolves: FeatureForID
    finds a feature of the dataset that has a string with the same
    canonical form, and it finds the feature itself when that is the last
    of the dataset. *)
Theorem FeatureForID_resolves :
  forall collection rf s,
    rf ∈ region.Features collection ->
    s ∈ (let p := region.Properties rf in
         [ region.ID p; region.ISO1A2 p; region.ISO1A3 p; region.ISO1N3 p;
           region.M49 p; region.Wikidata p; region.EmojiFlag p; region.CCTLD p;
           region.NameEn p ]) ->
    s <> "" -> canonicalID s <> "" ->
    (exists rf',
       rf' ∈ region.Features collection
       /\ FeatureForID (NewCountryCoder collection) s = Some (loadFeature rf')
       /\ claimsKey (canonicalID s) (loadFeature rf') = true)
    /\ (forall before,
          region.Features collection = before ++ [rf] ->
          FeatureForID (NewCountryCoder collection) s = Some (loadFeature rf)).
Proof.
  intros collection rf s Hrf Hin Hs Hk.
  pose proof (claimsKey_field rf s Hin Hs Hk) as Hc.
  unfold FeatureForID. cbv zeta. rewrite NewCountryCoder_lookup. split.
  - destruct (FeatureForID_claimed collection rf s Hrf Hc) as [g Hg].
    unfold FeatureForID in Hg. cbv zeta in Hg. rewrite NewCountryCoder_lookup in Hg.
    rewrite Hg. apply last_Some_elem_of in Hg.
    apply list_elem_of_filter in Hg as [Hcg (rf' & -> & Hrf')%list_elem_of_fmap].
    eauto.
  - intros before ->. rewrite fmap_app, filter_app. cbn [fmap list_fmap].
    rewrite (filter_cons _ (loadFeature rf) []), decide_True by done.
    rewrite filter_nil. apply last_snoc.
Qed.

(** ** Features listed after a match *)

Lemma smallestIn_app fs gs pt :
  smallestIn (fs ++ gs) pt
  = match smallestIn fs pt with
    | Some f => Some f
    | None => smallestIn gs pt
    end.
Proof.
  induction fs as [|a fs IH]; [done |].
  rewrite <- app_comm_cons, !smallestIn_cons, IH. by destruct (contains a pt).
Qed.

(** X23. Features listed after the first match do not count: the answer of
    SmallestFeature on a catalog is its answer on any front part of the
    list that holds a match, and features appended to a catalog change the
    answer only at the points no earlier feature contains. *)
Theorem SmallestFeature_append :
  forall fs gs index ranks lat lng,
    SmallestFeature {| features := fs ++ gs; featuresByCode := index; levels := ranks |} lat lng
    = match SmallestFeature {| features := fs; featuresByCode := index; levels := ranks |}
              lat lng with
      | Some f => Some f
      | None =>
          SmallestFeature {| features := gs; featuresByCode := index; levels := ranks |} lat lng
      end.
Proof.
  intros fs gs index ranks lat lng. unfold SmallestFeature. cbn [features].
  apply smallestIn_app.
Qed.

End CountryCoder.

(** * The properties on the example datasets

    The ring test is [boundsContain] (the rings are rectangles) and the
    Unicode mappings are the byte-wise ones (the identifiers are ASCII). *)

Lemma asciiMapUpper_mapping : UpperMapping (ToUpper asciiMapUpper) asciiMapUpper.
Proof.
  assert (forall s, ToUpper asciiMapUpper s = mapBytes upperByte s) as E.
  { intros s. unfold ToUpper, asciiMapUpper. by destruct (allBytes isASCIIByte s). }
  split; unfold asciiMapUpper.
  - intros s. rewrite E. apply mapBytes_upper_idem.
  - intros s. rewrite allBytes_mapBytes. apply allBytes_true. intros c.
    by rewrite upperByte_not_lower.
  - intros s Hs. rewrite allBytes_mapBytes, <- Hs. apply allBytes_ext. intros c.
    by rewrite upperByte_class.
  - intros [|c s] Hs; [done |]. simpl in *.
    apply andb_prop in Hs as [Hc _]. apply bool_decide_eq_true in Hc. by subst c.
Qed.

(** The byte-wise mapping meets the assumptions of C6, which then holds for
    the normaliser built on it. *)
Lemma canonicalID_idempotent_witness :
  (forall s, canonicalID asciiMapUpper (canonicalID asciiMapUpper s) = canonicalID asciiMapUpper s)
  /\ canonicalID asciiMapUpper "" = ""
  /\ (forall s, HasPrefix s "." = true ->
        canonicalID asciiMapUpper s = ToUpper asciiMapUpper s
        /\ (allBytes isASCIIByte s = true -> canonicalID asciiMapUpper s = mapBytes upperByte s))
  /\ canonicalID asciiMapUpper ".de" = ".DE"
  /\ canonicalID asciiMapUpper ".la" = ".LA".
Proof. exact (canonicalID_idempotent asciiMapUpper asciiMapUpper_mapping). Defined.

(** C1. In scenario 1 no geometry covers (0, 0), and CodeByLocation answers
    "??" there, not the empty string. *)
Lemma CodeByLocation_counterexample :
  (forall f, f ∈ features (NewCountryCoder asciiMapUpper scenario1) ->
     ~ covers boundsContain f (0%float, 0%float))
  /\ CodeByLocation boundsContain asciiMapUpper asciiMapLower
       (NewCountryCoder asciiMapUpper scenario1) 0 0 = "??"
  /\ CodeByLocation boundsContain asciiMapUpper asciiMapLower
       (NewCountryCoder asciiMapUpper scenario1) 0 0 <> "".
Proof.
  split_and!.
  - apply covers_none. vm_compute. reflexivity.
  - vm_compute. reflexivity.
  - vm_compute. discriminate.
Qed.

(** The amended C1 at the point (0, 0) of scenario 1. *)
Lemma CodeByLocation_no_match_witness :
  CodeByLocation boundsContain asciiMapUpper asciiMapLower
    (NewCountryCoder asciiMapUpper scenario1) 0 0 = "??".
Proof.
  apply CodeByLocation_no_match. apply covers_none. vm_compute. reflexivity.
Defined.

(** C3. With the default options the fast path answers the territory that
    holds the point: rank 1, below the rank 3 of the target "country". *)
Lemma featureForLoc_level_counterexample :
  featureForLoc boundsContain asciiMapUpper (NewCountryCoder asciiMapUpper loneTerritory)
    40 (-100) defaultOptions = Some (loadFeature atollRegion)
  /\ stringProp (loadFeature atollRegion) "level" = Some "territory"
  /\ levelIndex (NewCountryCoder asciiMapUpper loneTerritory) "territory" = 1%Z
  /\ levelIndex (NewCountryCoder asciiMapUpper loneTerritory)
       (targetLevelOf defaultOptions) = 3%Z
  /\ ~ inRange (NewCountryCoder asciiMapUpper loneTerritory) defaultOptions
        (loadFeature atollRegion).
Proof.
  split_and!; try (vm_compute; reflexivity).
  intros (level & Hl & [_ Ht] & _).
  assert (level = "territory") as -> by (vm_compute in Hl; congruence).
  vm_compute in Ht. by apply Ht.
Qed.

(** The amended C3 on scenario 1, for the target "territory": the general
    path answers the country, whose rank lies in the range. *)
Lemma featureForLoc_level_range_witness :
  (targetLevelOf {| Level := "territory"; MaxLevel := ""; WithProp := "" |} = "country"
   /\ countryFeature boundsContain asciiMapUpper
        (NewCountryCoder asciiMapUpper scenario1) 40 (-100) = Some (loadFeature usRegion))
  \/ inRange (NewCountryCoder asciiMapUpper scenario1)
       {| Level := "territory"; MaxLevel := ""; WithProp := "" |} (loadFeature usRegion).
Proof.
  apply (featureForLoc_level_range boundsContain asciiMapUpper _ 40%float (-100)%float).
  vm_compute. reflexivity.
Defined.

(** C4. A request for the level "country" is answered by the fast path before
    the levels are checked: a max level that is unknown, or more granular
    than the target, does not reject it, while the general path does. *)
Theorem featureForLoc_unchecked_max :
  featureForLoc boundsContain asciiMapUpper (NewCountryCoder asciiMapUpper scenario1)
    40 (-100) {| Level := "country"; MaxLevel := "galaxy"; WithProp := "" |}
  = Some (loadFeature usRegion)
  /\ levelIndex (NewCountryCoder asciiMapUpper scenario1) "galaxy" = (-1)%Z
  /\ featureForLoc boundsContain asciiMapUpper (NewCountryCoder asciiMapUpper scenario1)
       40 (-100) {| Level := ""; MaxLevel := "territory"; WithProp := "" |}
     = Some (loadFeature usRegion)
  /\ generalPath boundsContain asciiMapUpper (NewCountryCoder asciiMapUpper scenario1)
       40 (-100) {| Level := "country"; MaxLevel := "galaxy"; WithProp := "" |} = None.
Proof. repeat split; vm_compute; reflexivity. Qed.

(** C10 on a territory whose country "US" is not indexed: the answer is nil,
    though the territory and its code "PR" are. *)
Lemma countryFeature_follows_country_witness :
  countryFeature boundsContain asciiMapUpper
    (NewCountryCoder asciiMapUpper orphanTerritory) 40 (-100) = None.
Proof.
  refine (proj2 (countryFeature_follows_country boundsContain asciiMapUpper
                   (NewCountryCoder asciiMapUpper orphanTerritory) 40%float (-100)%float
                   (loadFeature orphanRegion) "US" _ _ _) _);
    [vm_compute; reflexivity | reflexivity | discriminate | vm_compute; reflexivity].
Defined.

(** Scenario 2 as the code runs it: the groups of "FR" are a []string, the
    walk is not entered and the union is not found. *)
Lemma featureForLoc_scenario2 :
  featureForLoc boundsContain asciiMapUpper (NewCountryCoder asciiMapUpper scenario2)
    40 (-100) {| Level := "union"; MaxLevel := "world"; WithProp := "" |} = None
  /\ FeatureForID asciiMapUpper (NewCountryCoder asciiMapUpper scenario2) "EU"
     = Some (loadFeature euRegion).
Proof. split; vm_compute; reflexivity. Qed.

(** * The further properties on the example datasets *)

(** X2 on "de", the code CodeByLocation gives for a point of Germany. *)
Lemma FeatureForID_empty_key_witness :
  FeatureForID asciiMapUpper (NewCountryCoder asciiMapUpper germany) "de" = None
  /\ NameEnByCode asciiMapUpper (NewCountryCoder asciiMapUpper germany) "de"
     = ToUpper asciiMapUpper "de".
Proof. apply (FeatureForID_empty_key asciiMapUpper germany "de"). reflexivity. Defined.

(** X6 on the country found with its ISO code required. *)
Lemma featureForLoc_withProp_witness :
  WithProp isoOptions = "" \/ hasProperty (loadFeature deRegion) (WithProp isoOptions) = true.
Proof.
  apply (featureForLoc_withProp boundsContain asciiMapUpper
           (NewCountryCoder asciiMapUpper germany) 40%float (-100)%float).
  vm_compute. reflexivity.
Defined.

(** X8 on a lookup by name. *)
Lemma Feature_of_catalog_witness :
  loadFeature deRegion ∈ features (NewCountryCoder asciiMapUpper germany)
  /\ exists rf, rf ∈ region.Features germany /\ loadFeature deRegion = loadFeature rf.
Proof.
  apply (Feature_of_catalog boundsContain asciiMapUpper germany (QueryString "germany") None).
  vm_compute. reflexivity.
Defined.

Lemma asciiMapLower_nonempty t : t <> "" -> asciiMapLower t <> "".
Proof. apply mapBytes_nonempty. Qed.

(** X10 on the point (0, 0) of scenario 1. *)
Lemma CodeByLocation_nonempty_witness :
  exists c rest,
    CodeByLocation boundsContain asciiMapUpper asciiMapLower
      (NewCountryCoder asciiMapUpper scenario1) 0 0 = String c rest.
Proof.
  exact (CodeByLocation_nonempty boundsContain asciiMapUpper asciiMapLower
           asciiMapLower_nonempty (NewCountryCoder asciiMapUpper scenario1) 0%float 0%float).
Defined.

(** X11 on the point (0, 0) of scenario 1. *)
Lemma SmallestFeature_miss_witness :
  countryFeature boundsContain asciiMapUpper (NewCountryCoder asciiMapUpper scenario1) 0 0 = None
  /\ (forall opts,
        featureForLoc boundsContain asciiMapUpper
          (NewCountryCoder asciiMapUpper scenario1) 0 0 opts = None)
  /\ (forall opts,
        Feature boundsContain asciiMapUpper
          (NewCountryCoder asciiMapUpper scenario1) (QueryArray 0 0) opts = None)
  /\ (forall opts rest,
        Feature boundsContain asciiMapUpper
          (NewCountryCoder asciiMapUpper scenario1) (QuerySlice (0%float :: 0%float :: rest)) opts
        = None)
  /\ ISO1A2Code boundsContain asciiMapUpper (NewCountryCoder asciiMapUpper scenario1) 0 0 = ""
  /\ NameEn boundsContain asciiMapUpper (NewCountryCoder asciiMapUpper scenario1) 0 0 = "".
Proof.
  apply (SmallestFeature_miss boundsContain asciiMapUpper
           (NewCountryCoder asciiMapUpper scenario1) 0%float 0%float).
  vm_compute. reflexivity.
Defined.


(** X14 on a subdivision code. *)
Lemma canonicalID_upper_case_witness :
  canonicalID asciiMapUpper "US-CA"
  = if HasPrefix "US-CA" "." then "US-CA"
    else filterBytes (fun c => negb (inFilterClass c)) "US-CA".
Proof. apply (canonicalID_upper_case asciiMapUpper "US-CA"); reflexivity. Defined.

(** X16 on a country that resolves to itself. *)
Lemma fastPath_generalPath_agree_witness :
  generalPath boundsContain asciiMapUpper (NewCountryCoder asciiMapUpper germany)
    40 (-100) isoOptions
  = fastPath boundsContain asciiMapUpper (NewCountryCoder asciiMapUpper germany)
      40 (-100) isoOptions.
Proof.
  apply (fastPath_generalPath_agree boundsContain asciiMapUpper germany 40%float (-100)%float
           isoOptions (loadFeature deRegion)); vm_compute; reflexivity.
Defined.

(** X17 on a territory whose country is not in the dataset. *)
Lemma countryFeature_nil_loaded_witness :
  SmallestFeature boundsContain (NewCountryCoder asciiMapUpper orphanTerritory) 40 (-100) = None
  \/ exists f,
       SmallestFeature boundsContain (NewCountryCoder asciiMapUpper orphanTerritory) 40 (-100)
       = Some f
       /\ ((exists country,
              stringProp f "country" = Some country /\ country <> ""
              /\ FeatureForID asciiMapUpper (NewCountryCoder asciiMapUpper orphanTerritory) country
                 = None)
           \/ (exists iso,
                 stringProp f "country" = Some "" /\ stringProp f "iso1A2" = Some iso
                 /\ iso <> "" /\ canonicalID asciiMapUpper iso = "")).
Proof.
  apply (countryFeature_nil_loaded boundsContain asciiMapUpper orphanTerritory
           40%float (-100)%float).
  vm_compute. reflexivity.
Defined.

(** X18 on a name with punctuation. *)
Lemma canonicalID_shape_witness :
  allBytes (fun c => negb (isLower c))
    (canonicalID asciiMapUpper "St. Martin (French part)") = true
  /\ (HasPrefix "St. Martin (French part)" "." = false ->
      allBytes (fun c => negb (inFilterClass c))
        (canonicalID asciiMapUpper "St. Martin (French part)") = true).
Proof.
  exact (canonicalID_shape asciiMapUpper asciiMapUpper_mapping "St. Martin (French part)").
Defined.

(** X21 on a name in which no stop word stands alone. *)
Lemma canonicalID_case_insensitive_witness :
  canonicalID asciiMapUpper (ToUpper asciiMapUpper "Bosnia & Herzegovina")
  = canonicalID asciiMapUpper "Bosnia & Herzegovina"
  /\ forall cc,
       FeatureForID asciiMapUpper cc (ToUpper asciiMapUpper "Bosnia & Herzegovina")
       = FeatureForID asciiMapUpper cc "Bosnia & Herzegovina".
Proof.
  apply (canonicalID_case_insensitive asciiMapUpper "Bosnia & Herzegovina");
    [reflexivity | right; reflexivity].
Defined.

(** X22 on the English name of the only feature of a dataset. *)
Lemma FeatureForID_resolves_witness :
  (exists rf',
     rf' ∈ region.Features germany
     /\ FeatureForID asciiMapUpper (NewCountryCoder asciiMapUpper germany) "Germany"
        = Some (loadFeature rf')
     /\ claimsKey asciiMapUpper (canonicalID asciiMapUpper "Germany") (loadFeature rf') = true)
  /\ (forall before,
        region.Features germany = before ++ [deRegion] ->
        FeatureForID asciiMapUpper (NewCountryCoder asciiMapUpper germany) "Germany"
        = Some (loadFeature deRegion)).
Proof.
  apply (FeatureForID_resolves asciiMapUpper germany deRegion "Germany").
  - left.
  - vm_compute. do 8 right. left.
  - discriminate.
  - vm_compute. discriminate.
Defined.
